(** * tracerr2: errors that carry a stack trace, and their rendering

    A shallow embedding of the Go package [tracerr] and proofs about it.

    The repository holds two editions of the package:
    - [tracerr2.go], the chain-aware edition: an [Error] has a cause,
      [Wrap]/[Wrapf] build chains, [Fprint] walks the chain and prints a
      "Caused by:" separator between nodes ([Module Chain]);
    - an earlier single-node edition: no cause, [Fprint] prints one error and
      underlines the failing line with carets ([Module Single]).

    Both share [Frame], [readSourceContextLines] and the ANSI helpers.

    Conventions of the embedding:
    - a Go [string] is a sequence of bytes: [String.string];
    - a Go [int] is a 64-bit two's complement integer: a [Z] kept in range
      by [wrap];
    - a panic (nil dereference, index out of range) is [None];
    - an [io.Writer] receives a sequence of [Write] calls, one for each
      [fmt.Fprintf]: the sink is the list of these writes. *)

From Stdlib Require Import List String Ascii ZArith Lia Bool Arith.
From Stdlib Require Import Numbers.DecimalString.
Import ListNotations.

Local Open Scope list_scope.
Local Open Scope string_scope.

(** ** Go's [int] *)

Module GoInt.

Definition min_int : Z := - 2 ^ 63.
Definition max_int : Z := 2 ^ 63 - 1.

(** Two's complement wrap-around of a 64-bit signed integer. *)
Definition wrap (z : Z) : Z := ((z + 2 ^ 63) mod 2 ^ 64 - 2 ^ 63)%Z.

Definition add (a b : Z) : Z := wrap (a + b).
Definition sub (a b : Z) : Z := wrap (a - b).

Definition in_range (z : Z) : Prop := (min_int <= z <= max_int)%Z.

End GoInt.

(** ** The parts of Go's standard library that the package calls *)

Module GoLib.

Definition LF : ascii := "010"%char.
Definition ESC : ascii := "027"%char.
Definition newline : string := String LF "".

(** [strings.Repeat(s, n)] *)
Fixpoint strings_Repeat (s : string) (n : nat) : string :=
  match n with
  | O => ""
  | S n' => s ++ strings_Repeat s n'
  end.

(** [strings.Join(elems, sep)] is [String.concat sep elems]. *)
Definition strings_Join (elems : list string) (sep : string) : string :=
  String.concat sep elems.

(** [strings.Split(s, sep)] for a separator of one byte: the pieces of [s]
    between the occurrences of [sep]; a string without [sep] is its own
    single piece. *)
Fixpoint strings_Split (s : string) (sep : ascii) : list string :=
  match s with
  | "" => [""]
  | String c s' =>
      if Ascii.eqb c sep then "" :: strings_Split s' sep
      else match strings_Split s' sep with
           | piece :: pieces => String c piece :: pieces
           | [] => [String c ""]
           end
  end.

(** [strings.HasPrefix(s, prefix)] *)
Definition strings_HasPrefix (s pre : string) : bool := String.prefix pre s.

(** [filepath.Base(path)] on a system whose separator is the slash: the
    last element of the path, after the trailing slashes are removed; "."
    for the empty path and "/" for a path of slashes only. *)
Fixpoint strip_trailing_slashes (s : string) : string :=
  match s with
  | "" => ""
  | String c s' =>
      match strip_trailing_slashes s' with
      | "" => if Ascii.eqb c "/" then "" else String c ""
      | t => String c t
      end
  end.

Fixpoint last_element (s : string) : string :=
  match s with
  | "" => ""
  | String c s' =>
      if existsb (Ascii.eqb "/"%char) (list_ascii_of_string s') then last_element s'
      else if Ascii.eqb c "/" then s' else s
  end.

Definition filepath_Base (path : string) : string :=
  match path with
  | "" => "."
  | _ =>
      match last_element (strip_trailing_slashes path) with
      | "" => "/"
      | b => b
      end
  end.

(** [fmt.Sprintf("%d", n)] *)
Definition fmt_d (n : Z) : string := NilZero.string_of_int (Z.to_int n).

(** [fmt.Sprintf("%*d", width, n)]: [n] in decimal, padded with spaces on
    the left up to [width] bytes. *)
Definition fmt_pad_d (width : nat) (n : Z) : string :=
  let digits := fmt_d n in
  strings_Repeat " " (width - String.length digits) ++ digits.

End GoLib.

Import GoLib.

(** ** What both editions share *)

(** ANSI color and formatting constants. *)
Definition colorRed : string := String ESC "[31m".
Definition colorYellow : string := String ESC "[33m".
Definition colorReset : string := String ESC "[0m".
Definition colorGray : string := String ESC "[90m".
Definition colorBoldGray : string := String ESC "[1;90m".
Definition formatItalic : string := String ESC "[3m".

Definition italic (s : string) : string := formatItalic ++ s ++ colorReset.
Definition gray (s : string) : string := colorGray ++ s ++ colorReset.
Definition boldGray (s : string) : string := colorBoldGray ++ s ++ colorReset.
Definition red (s : string) : string := colorRed ++ s ++ colorReset.
Definition yellow (s : string) : string := colorYellow ++ s ++ colorReset.

(** A single frame of a stack trace. *)
Record Frame : Type := mkFrame {
  File : string;
  Line : Z;
  Function : string
}.

(** *** The file system, as the reader sees it

    [os.Open] fails or yields a file; a [bufio.Scanner] over the file
    yields its lines one by one and then stops, at the end of the file
    ([scan_fails = false]) or on an error ([scan_fails = true], for which
    [scanner.Err()] is not nil). *)
Record SourceFile : Type := mkSourceFile {
  scan_lines : list string;
  scan_fails : bool
}.

Definition FileSystem : Type := string -> option SourceFile.

Inductive ReadError : Type :=
| OpenFailed
| ScanFailed
| NoLinesInRange.

(** The scanning loop of [readSourceContextLines]. It returns the lines
    collected and whether [scanner.Err()] is not nil afterwards; the loop
    left by [break] has met no error. *)
Fixpoint scan (pending : list string) (fails : bool)
    (currentLine start end_ : Z) (lines : list string) : list string * bool :=
  match pending with
  | [] => (lines, fails)
  | text :: pending' =>
      let currentLine := GoInt.add currentLine 1 in
      let lines :=
        if ((start <=? currentLine) && (currentLine <=? end_))%Z
        then (lines ++ [text])%list else lines in
      if (end_ <? currentLine)%Z then (lines, false)
      else scan pending' fails currentLine start end_ lines
  end.

Definition readSourceContextLines (fs : FileSystem) (filePath : string)
    (centerLine context : Z) : (list string * Z) + ReadError :=
  match fs filePath with
  | None => inr OpenFailed
  | Some file =>
      let start := GoInt.sub centerLine context in
      let start := if (start <? 1)%Z then 1%Z else start in
      let end_ := GoInt.add centerLine context in
      let '(lines, failed) :=
        scan (scan_lines file) (scan_fails file) 0 start end_ [] in
      if failed then inr ScanFailed
      else if (List.length lines =? 0)%nat then inr NoLinesInRange
      else inl (lines, start)
  end.

(** A file that opens and that the scanner reads to its end. *)
Definition readable (fs : FileSystem) (path : string) (content : list string) : Prop :=
  fs path = Some (mkSourceFile content false).

(** The lines of [content] whose 1-based index lies in [[lo, hi]]. *)
Definition lines_between (content : list string) (lo hi : Z) : list string :=
  firstn (Z.to_nat (hi - lo + 1)) (skipn (Z.to_nat (lo - 1)) content).

(** *** The stack walker

    [runtime.Caller(i)] answers for the level [i] of the calling
    goroutine's stack, as long as there is one; [runtime.FuncForPC] may
    know the function of that level, or not ([nil]). *)
Record Caller : Type := mkCaller {
  caller_file : string;
  caller_line : Z;
  caller_func : option string
}.

Definition Stack : Type := list Caller.

Definition runtime_Caller (stk : Stack) (i : nat) : option Caller :=
  nth_error stk i.

(** The answers of [runtime.Caller(skip)], [runtime.Caller(skip+1)], ...
    up to the first one that is not [ok]. *)
Definition callers_from (stk : Stack) (skip : nat) : list Caller :=
  skipn skip stk.

(** The name under which a level is recorded. *)
Definition funcName (c : Caller) : string :=
  match caller_func c with
  | Some name => filepath_Base name
  | None => "<unknown>"
  end.

Definition frame_of (c : Caller) : Frame :=
  mkFrame (caller_file c) (caller_line c) (funcName c).

(** *** The highlighting engine

    [quick.Highlight(&buf, codeBlock, "go", "terminal256", "monokai")]:
    what the engine wrote into the buffer, and whether it returned an
    error. *)
Definition Highlighter : Type := string -> string * bool.

(** The buffer after the call and the fallback. *)
Definition highlightedBuf (hl : Highlighter) (codeBlock : string) : string :=
  let '(written, failed) := hl codeBlock in
  if failed then written ++ codeBlock else written.

(** *** The sink

    Each [fmt.Fprintf] is one write; it is recorded with the place of the
    call, which is not part of what is written. *)
Inductive Site : Type :=
| Message
| Separator
| FrameHeader
| Placeholder
| SourceLine
| CaretRow.

Definition Write : Type := (Site * string)%type.

Definition Site_eqb (a b : Site) : bool :=
  match a, b with
  | Message, Message | Separator, Separator | FrameHeader, FrameHeader
  | Placeholder, Placeholder | SourceLine, SourceLine | CaretRow, CaretRow => true
  | _, _ => false
  end.

(** The number of writes made at a given place. *)
Definition count_site (s : Site) (out : list Write) : nat :=
  List.length (filter (fun w => Site_eqb (fst w) s) out).

(** The number of writes of a given text. *)
Definition count_text (text : string) (out : list Write) : nat :=
  List.length (filter (fun w => String.eqb (snd w) text) out).

(** The bytes that reach the sink. *)
Definition rendered (out : list Write) : string :=
  String.concat "" (map snd out).

Definition frameHeader (frame : Frame) : Write :=
  let location := gray (filepath_Base (File frame) ++ ":" ++ fmt_d (Line frame)) in
  let function := yellow (Function frame) in
  (FrameHeader, "  at " ++ function ++ " (" ++ location ++ ")" ++ newline).

Definition placeholder : Write :=
  (Placeholder, "    " ++ gray "Could not read source file" ++ newline).

Definition lineNumWidth (startLine : Z) (lines : list string) : nat :=
  String.length
    (fmt_d (GoInt.sub (GoInt.add startLine (Z.of_nat (List.length lines))) 1)).

(** The gutter of a source line: [fmt.Sprintf("  %*d | ", width, lineNum)],
    bold for the line of the frame. *)
Definition gutter (isErrorLine : bool) (width : nat) (lineNum : Z) : string :=
  let text := "  " ++ fmt_pad_d width lineNum ++ " | " in
  if isErrorLine then boldGray text else gray text.

(** A highlighted line behind its gutter:
    [fmt.Fprintf(w, "%s%s\n", gutter, hLine)]. *)
Definition sourceLine (isErrorLine : bool) (width : nat) (lineNum : Z)
    (hLine : string) : Write :=
  (SourceLine, gutter isErrorLine width lineNum ++ hLine ++ newline).

(** ** The chain-aware edition ([tracerr2.go]) *)

Module Chain.

(** A non-nil value of the interface [error]: a [*Error], which may be the
    nil pointer, or a value of a type of another package, with the string
    its [Error] method returns and what [errors.Unwrap] yields on it. *)
#[warnings="-register-all"]
Inductive error : Type :=
| TracerrError (p : option nat)
| ForeignError (msg : string) (inner : option error).

Record Error : Type := mkError {
  Msg : string;
  Frames : list Frame;
  cause : option error
}.

(** The [Error] nodes allocated so far; a [*Error] that is not nil is an
    index into the heap. *)
Definition Heap : Type := list Error.

(** The frame walk of [newError]: it stops where the stack ends and at the
    first level of the Go runtime. *)
Fixpoint captureFrames (levels : list Caller) : list Frame :=
  match levels with
  | [] => []
  | c :: levels' =>
      if strings_HasPrefix (funcName c) "runtime." then []
      else frame_of c :: captureFrames levels'
  end.

(** [newError] allocates a node. *)
Definition newError (stk : Stack) (msg : string) (skip : nat) (h : Heap)
    : Heap * nat :=
  ((h ++ [mkError msg (captureFrames (callers_from stk skip)) None])%list,
   List.length h).

(** The assignment [e.cause = err]. *)
Fixpoint set_cause (h : Heap) (e : nat) (err : option error) : Heap :=
  match h, e with
  | [], _ => []
  | node :: h', O => mkError (Msg node) (Frames node) err :: h'
  | node :: h', S e' => node :: set_cause h' e' err
  end.

Definition New (stk : Stack) (msg : string) (h : Heap) : Heap * nat :=
  newError stk msg 2 h.

Definition Wrap (stk : Stack) (err : option error) (msg : string) (h : Heap)
    : Heap * option nat :=
  match err with
  | None => (h, None)
  | Some _ =>
      let '(h1, e) := newError stk msg 2 h in
      (set_cause h1 e err, Some e)
  end.

Section Formatted.

(** [fmt.Sprintf], over whatever the arguments are. *)
Context {Arg : Type} (fmt_Sprintf : string -> list Arg -> string).

Definition Errorf (stk : Stack) (format : string) (args : list Arg)
      (h : Heap) : Heap * nat :=
    newError stk (fmt_Sprintf format args) 2 h.

Definition Wrapf (stk : Stack) (err : option error) (format : string)
      (args : list Arg) (h : Heap) : Heap * option nat :=
    match err with
    | None => (h, None)
    | Some _ =>
        let '(h1, e) := newError stk (fmt_Sprintf format args) 2 h in
        (set_cause h1 e err, Some e)
    end.

End Formatted.

(** The method [Error] called on a value of the interface. [None]: the call
    panics (the receiver is the nil pointer) or the fuel is used up. *)
Fixpoint error_Error (fuel : nat) (h : Heap) (e : error) : option string :=
  match e with
  | ForeignError msg _ => Some msg
  | TracerrError None => None
  | TracerrError (Some p) =>
      match fuel with
      | O => None
      | S fuel' =>
          match nth_error h p with
          | None => None
          | Some node =>
              match cause node with
              | Some c =>
                  match error_Error fuel' h c with
                  | Some s => Some (Msg node ++ ": " ++ s)
                  | None => None
                  end
              | None => Some (Msg node)
              end
          end
      end
  end.

(** [(e *Error) Error()] *)
Definition Error_Error (fuel : nat) (h : Heap) (e : option nat) : option string :=
  error_Error fuel h (TracerrError e).

(** [(e *Error) Unwrap()]; [None] is the panic of a nil receiver. *)
Definition Error_Unwrap (h : Heap) (e : option nat) : option (option error) :=
  match e with
  | None => None
  | Some p => option_map cause (nth_error h p)
  end.

(** [errors.Unwrap(err)] on a non-nil [err]. *)
Definition errors_Unwrap (h : Heap) (err : error) : option (option error) :=
  match err with
  | TracerrError p => Error_Unwrap h p
  | ForeignError _ inner => Some inner
  end.

(** The loop over the highlighted lines in [printFrame]. *)
Fixpoint printLines (highlightedLines : list string) (i : nat)
    (lines : list string) (startLine errorLineIndex : Z) (width : nat)
    : list Write :=
  match highlightedLines with
  | [] => []
  | hLine :: rest =>
      if (List.length lines <=? i)%nat
      then printLines rest (S i) lines startLine errorLineIndex width
      else
        let lineNum := GoInt.add startLine (Z.of_nat i) in
        let isErrorLine := (Z.of_nat i =? errorLineIndex)%Z in
        sourceLine isErrorLine width lineNum hLine
          :: printLines rest (S i) lines startLine errorLineIndex width
  end.

Definition printFrame (fs : FileSystem) (hl : Highlighter) (frame : Frame)
    : list Write :=
  frameHeader frame ::
  match readSourceContextLines fs (File frame) (Line frame) 1 with
  | inr _ => [placeholder]
  | inl (lines, startLine) =>
      let codeBlock := strings_Join lines newline in
      let highlightedLines := strings_Split (highlightedBuf hl codeBlock) LF in
      let errorLineIndex := GoInt.sub (Line frame) startLine in
      printLines highlightedLines 0 lines startLine errorLineIndex
        (lineNumWidth startLine lines)
  end.

Definition separator : Write :=
  (Separator, newline ++ formatItalic ++ "Caused by: " ++ colorReset).

(** What one turn of the loop of [Fprint] writes for the current error,
    after the separator. *)
Definition printNode (fs : FileSystem) (hl : Highlighter) (h : Heap)
    (currentErr : error) : option (list Write) :=
  match currentErr with
  | TracerrError None => None
  | TracerrError (Some p) =>
      match nth_error h p with
      | None => None
      | Some tracerrErr =>
          Some ((Message, red (Msg tracerrErr) ++ newline)
                  :: flat_map (printFrame fs hl) (Frames tracerrErr))
      end
  | ForeignError msg _ => Some [(Message, red msg ++ newline)]
  end.

(** The loop of [Fprint]. [None]: a panic, or the fuel is used up. *)
Fixpoint Fprint_loop (fuel : nat) (fs : FileSystem) (hl : Highlighter)
    (h : Heap) (currentErr : option error) (isFirst : bool)
    : option (list Write) :=
  match currentErr with
  | None => Some []
  | Some cur =>
      match fuel with
      | O => None
      | S fuel' =>
          match printNode fs hl h cur, errors_Unwrap h cur with
          | Some node, Some next =>
              match Fprint_loop fuel' fs hl h next false with
              | Some rest =>
                  Some ((if isFirst then [] else [separator]) ++ node ++ rest)%list
              | None => None
              end
          | _, _ => None
          end
      end
  end.

Definition Error_Fprint (fuel : nat) (fs : FileSystem) (hl : Highlighter)
    (h : Heap) (e : option nat) : option (list Write) :=
  Fprint_loop fuel fs hl h (Some (TracerrError e)) true.

(** [Print] is [Fprint] to the standard error stream. *)
Definition Error_Print := Error_Fprint.

(** The cause chain of an error: what the loop of [Fprint] visits. *)
Inductive cause_chain (h : Heap) : error -> list error -> Prop :=
| chain_end e :
    errors_Unwrap h e = Some None -> cause_chain h e [e]
| chain_step e e' l :
    errors_Unwrap h e = Some (Some e') -> cause_chain h e' l ->
    cause_chain h e (e :: l).

(** An error value of a heap: its pointers are not nil and are allocated. *)
Fixpoint live (bound : nat) (e : error) : Prop :=
  match e with
  | TracerrError None => False
  | TracerrError (Some p) => (p < bound)%nat
  | ForeignError _ None => True
  | ForeignError _ (Some e') => live bound e'
  end.

(** The invariant of the heap: the cause of a node was allocated before
    the node. *)
Definition heap_ok (h : Heap) : Prop :=
  forall p node c,
    nth_error h p = Some node -> cause node = Some c -> live p c.

End Chain.

(** ** The single-node edition *)

Module Single.

Record Error : Type := mkError {
  Msg : string;
  Frames : list Frame
}.

(** The frame walk of [newError]: it stops where the stack ends. *)
Fixpoint captureFrames (levels : list Caller) : list Frame :=
  match levels with
  | [] => []
  | c :: levels' => frame_of c :: captureFrames levels'
  end.

Definition newError (stk : Stack) (msg : string) (skip : nat) : Error :=
  mkError msg (captureFrames (callers_from stk skip)).

Definition New (stk : Stack) (msg : string) : Error := newError stk msg 2.

Section Formatted.

Context {Arg : Type} (fmt_Sprintf : string -> list Arg -> string).

Definition Errorf (stk : Stack) (format : string) (args : list Arg) : Error :=
    newError stk (fmt_Sprintf format args) 2.

End Formatted.

(** [(e *Error) Error()] *)
Definition Error_Error (e : Error) : string := Msg e.

Definition caretRow (width : nat) (line : string) : Write :=
  let caretGutter := boldGray ("  " ++ strings_Repeat " " width ++ " | ") in
  let caretLine := red (strings_Repeat "^" (String.length line)) in
  (CaretRow, caretGutter ++ caretLine ++ newline).

(** The loop over the highlighted lines in [Fprint]. [None]: the index
    [lines[i]] is out of range. *)
Fixpoint printLines (highlightedLines : list string) (i : nat)
    (lines : list string) (startLine errorLineIndex : Z) (width : nat)
    : option (list Write) :=
  match highlightedLines with
  | [] => Some []
  | hLine :: rest =>
      if (List.length lines <=? i)%nat
      then printLines rest (S i) lines startLine errorLineIndex width
      else
        let lineNum := GoInt.add startLine (Z.of_nat i) in
        let isErrorLine := (Z.of_nat i =? errorLineIndex)%Z in
        let caret :=
          if isErrorLine
          then option_map (fun line => [caretRow width line]) (nth_error lines i)
          else Some [] in
        match caret, printLines rest (S i) lines startLine errorLineIndex width with
        | Some caret, Some out =>
            Some (sourceLine isErrorLine width lineNum hLine :: caret ++ out)%list
        | _, _ => None
        end
  end.

(** One turn of the loop over the frames in [Fprint]. *)
Definition printFrame (fs : FileSystem) (hl : Highlighter) (frame : Frame)
    : option (list Write) :=
  match readSourceContextLines fs (File frame) (Line frame) 1 with
  | inr _ => Some [frameHeader frame; placeholder]
  | inl (lines, startLine) =>
      let codeBlock := strings_Join lines newline in
      let highlightedLines := strings_Split (highlightedBuf hl codeBlock) LF in
      let errorLineIndex := GoInt.sub (Line frame) startLine in
      option_map (cons (frameHeader frame))
        (printLines highlightedLines 0 lines startLine errorLineIndex
           (lineNumWidth startLine lines))
  end.

Fixpoint printFrames (fs : FileSystem) (hl : Highlighter) (frames : list Frame)
    : option (list Write) :=
  match frames with
  | [] => Some []
  | frame :: frames' =>
      match printFrame fs hl frame, printFrames fs hl frames' with
      | Some out, Some out' => Some (out ++ out')%list
      | _, _ => None
      end
  end.

Definition Error_Fprint (fs : FileSystem) (hl : Highlighter) (e : Error)
    : option (list Write) :=
  option_map (cons (Message, red (Msg e) ++ colorReset ++ "" ++ newline))
    (printFrames fs hl (Frames e)).

Definition Error_Print := Error_Fprint.

End Single.

(** ** Notions of the specification *)

Module Notions.

(** A line, as a scanner yields it, holds no line feed. *)
Fixpoint no_LF (s : string) : bool :=
  match s with
  | "" => true
  | String c s' => negb (Ascii.eqb c LF) && no_LF s'
  end.

(** A color code is an escape sequence: the byte ESC, an opening bracket,
    digits and semicolons, and the letter m. [strip_from] copies a string
    without its color codes; its state is the part of a possible code read
    so far. *)
Inductive Pending : Type :=
| Outside
| AfterEsc
| InParams (params : string).

Definition pending_text (st : Pending) : string :=
  match st with
  | Outside => ""
  | AfterEsc => String ESC ""
  | InParams params => String ESC (String "[" params)
  end.

Definition is_param (c : ascii) : bool :=
  let n := nat_of_ascii c in
  ((48 <=? n)%nat && (n <=? 57)%nat) || Ascii.eqb c ";".

(** One byte more: what is copied, and the new state. A byte that cannot
    go on the pending code gives the pending bytes back. *)
Definition step (st : Pending) (c : ascii) : string * Pending :=
  let plain :=
    if Ascii.eqb c ESC then (pending_text st, AfterEsc)
    else (pending_text st ++ String c "", Outside) in
  match st with
  | Outside => plain
  | AfterEsc => if Ascii.eqb c "[" then ("", InParams "") else plain
  | InParams params =>
      if is_param c then ("", InParams (params ++ String c ""))
      else if Ascii.eqb c "m" then ("", Outside)
      else plain
  end.

Fixpoint strip_from (st : Pending) (s : string) : string :=
  match s with
  | "" => pending_text st
  | String c s' => fst (step st c) ++ strip_from (snd (step st c)) s'
  end.

(** What is pending holds no line feed. *)
Definition pending_ok (st : Pending) : Prop := no_LF (pending_text st) = true.

(** The sequence of the characters of [s] that belong to no color code. *)
Definition strip_colors (s : string) : string := strip_from Outside s.

(** The number of characters of a line encoded in UTF-8: every byte
    counts but the continuation bytes [10xxxxxx]. *)
Definition is_continuation (c : ascii) : bool :=
  let n := nat_of_ascii c in (128 <=? n)%nat && (n <? 192)%nat.

Fixpoint character_count (s : string) : nat :=
  match s with
  | "" => 0
  | String c s' =>
      if is_continuation c then character_count s' else S (character_count s')
  end.

(** The number of occurrences of a byte. *)
Fixpoint count_byte (b : ascii) (s : string) : nat :=
  match s with
  | "" => 0
  | String c s' => (if Ascii.eqb c b then 1 else 0) + count_byte b s'
  end.

(** A line of single-byte characters only. *)
Fixpoint all_ascii (s : string) : bool :=
  match s with
  | "" => true
  | String c s' => (nat_of_ascii c <? 128)%nat && all_ascii s'
  end.

(** A write that is no separator, by its place and by its text. *)
Definition plain_write (w : Write) : Prop :=
  Site_eqb (fst w) Separator = false /\
  String.eqb (snd w) (snd Chain.separator) = false.

(** A level of the stack that is not one of the Go runtime. *)
Definition user_level (c : Caller) : Prop :=
  strings_HasPrefix (funcName c) "runtime." = false.

End Notions.

Import Notions.

(** ** Concrete inputs *)

Module Examples.

(** A file system with one file. *)
Definition one_file (path : string) (content : list string) : FileSystem :=
  fun p => if String.eqb p path then Some (mkSourceFile content false) else None.

Definition twenty_lines : list string :=
  map (fun n => "line " ++ fmt_d (Z.of_nat n)) (seq 1 20).

Definition twenty_fs : FileSystem := one_file "main.go" twenty_lines.

(** The stack seen from [newError] when [main.Gamma], called by
    [main.main], creates an error. *)
Definition gamma_stack (creator : string) : Stack :=
  [ mkCaller "/src/tracerr2/tracerr2.go" 82
      (Some "github.com/xplshn/tracerr2.newError");
    mkCaller "/src/tracerr2/tracerr2.go" 46 (Some creator);
    mkCaller "/src/app/main.go" 10 (Some "main.Gamma");
    mkCaller "/src/app/main.go" 3 (Some "main.main");
    mkCaller "/usr/lib/go/src/runtime/proc.go" 283 (Some "runtime.main");
    mkCaller "/usr/lib/go/src/runtime/asm_amd64.s" 1700 (Some "runtime.goexit") ].

Definition new_stack : Stack := gamma_stack "github.com/xplshn/tracerr2.New".
Definition wrap_stack : Stack := gamma_stack "github.com/xplshn/tracerr2.Wrap".

(** The heap after [E1 := New("root cause")]. *)
Definition root_heap : Chain.Heap := fst (Chain.New new_stack "root cause" []).
Definition root_error : Chain.error := Chain.TracerrError (Some 0).

(** The program of the stack above. *)
Definition app_source : list string :=
  [ "package main";
    "";
    "func main() { Gamma() }";
    "";
    "// Gamma fails.";
    "func Gamma() error {";
    "	if ready() {";
    "		return nil";
    "	}";
    "	return tracerr.New(reason)";
    "}";
    "" ].

Definition app_fs : FileSystem := one_file "/src/app/main.go" app_source.

Definition gamma_frame : Frame := mkFrame "/src/app/main.go" 10 "main.Gamma".

(** An engine that fails, and one that colors every line and ends its
    output with a line feed. *)
Definition failing_engine : Highlighter := fun _ => ("", true).

Definition coloring_engine : Highlighter :=
  fun code =>
    (String.concat newline (map yellow (strings_Split code LF)) ++ newline, false).

(** A line with a character of two bytes, U+00E9. *)
Definition accent_line : string := "// " ++ String "195" (String "169" "").

Definition accent_fs : FileSystem := one_file "/src/app/accent.go" [accent_line].

Definition accent_frame : Frame := mkFrame "/src/app/accent.go" 1 "main.main".

(** A chain of three errors: the root, wrapped twice. *)
Definition chain_heap : Chain.Heap :=
  fst (Chain.Wrap wrap_stack (Some (Chain.TracerrError (Some 1))) "request failed"
         (fst (Chain.Wrap wrap_stack (Some root_error) "context" root_heap))).

(** A machine on which no source file is left. *)
Definition no_files : FileSystem := fun _ => None.

End Examples.

(** ** More notions and concrete inputs *)

Module MoreNotions.

(** The parts of the one-line summary of a chain: the messages of its
    nodes up to the first error of another package, whose own summary is
    the last part. *)
Fixpoint summary_parts (h : Chain.Heap) (l : list Chain.error) : list string :=
  match l with
  | [] => []
  | Chain.TracerrError (Some p) :: l' =>
      match nth_error h p with
      | Some node => Chain.Msg node :: summary_parts h l'
      | None => []
      end
  | Chain.TracerrError None :: _ => []
  | Chain.ForeignError msg _ :: _ => [msg]
  end.

(** The frames that the report prints for an error of the chain. *)
Definition node_frames (h : Chain.Heap) (e : Chain.error) : list Frame :=
  match e with
  | Chain.TracerrError (Some p) =>
      match nth_error h p with
      | Some node => Chain.Frames node
      | None => []
      end
  | _ => []
  end.

(** A frame whose context cannot be read. *)
Definition unreadable (fs : FileSystem) (frame : Frame) : bool :=
  match readSourceContextLines fs (File frame) (Line frame) 1 with
  | inl _ => false
  | inr _ => true
  end.

(** The addresses of the nodes of a chain, in the order of the chain. *)
Fixpoint chain_addresses (l : list Chain.error) : list nat :=
  match l with
  | [] => []
  | Chain.TracerrError (Some p) :: l' => p :: chain_addresses l'
  | _ :: l' => chain_addresses l'
  end.

(** Addresses below a bound, each below the one before. *)
Fixpoint descending (bound : nat) (ps : list nat) : Prop :=
  match ps with
  | [] => True
  | p :: ps' => p < bound /\ descending p ps'
  end.

(** A write that is no caret row. *)
Definition not_caret (w : Write) : bool := negb (Site_eqb (fst w) CaretRow).

(** A write made at a given place. *)
Definition at_site (s : Site) (w : Write) : bool := Site_eqb (fst w) s.

(** The message that the report prints for an error of the chain. *)
Definition node_message (h : Chain.Heap) (e : Chain.error) : string :=
  match e with
  | Chain.TracerrError (Some p) =>
      match nth_error h p with
      | Some node => Chain.Msg node
      | None => ""
      end
  | Chain.TracerrError None => ""
  | Chain.ForeignError msg _ => msg
  end.

(** The text of the line of a frame whose context cannot be read. *)
Definition unread_text : string :=
  "    " ++ String ESC "[90m" ++ "Could not read source file"
    ++ String ESC "[0m" ++ String LF "".

(** A text whose carriage returns are made line feeds. *)
Fixpoint CR_to_LF (s : string) : string :=
  match s with
  | "" => ""
  | String c s' => String (if Ascii.eqb c "013" then LF else c) (CR_to_LF s')
  end.

(** A text without the byte ESC. *)
Fixpoint no_ESC (s : string) : bool :=
  match s with
  | "" => true
  | String c s' => negb (Ascii.eqb c ESC) && no_ESC s'
  end.

End MoreNotions.

Import MoreNotions.

Module MoreExamples.

(** The program of [Examples.app_source], on a disk that fails after its
    twelve lines are read. *)
Definition failing_app_fs : FileSystem :=
  fun p =>
    if String.eqb p "/src/app/main.go"
    then Some (mkSourceFile Examples.app_source true) else None.

(** The chain of [Examples.chain_heap], from its newest node. *)
Definition chain_of_three : list Chain.error :=
  [Chain.TracerrError (Some 2); Chain.TracerrError (Some 1);
   Chain.TracerrError (Some 0)].



(** An engine that fails after it wrote a part of its output, and one
    that succeeds, adds no color, and makes every line ending a line
    feed. *)
Definition partial_engine : Highlighter := fun _ => ("PART", true).

Definition normalizing_engine : Highlighter :=
  fun code => (CR_to_LF code, false).

(** A file whose second line holds a carriage return. *)
Definition cr_source : list string :=
  [ "x := 1"; "a" ++ String "013" "b"; "y := 2" ].

Definition cr_fs : FileSystem := Examples.one_file "/src/app/cr.go" cr_source.

Definition cr_frame : Frame := mkFrame "/src/app/cr.go" 2 "main.main".

End MoreExamples.

(** * Proofs *)

(** ** Arithmetic of [int] *)

Lemma wrap_in_range z : GoInt.in_range z -> GoInt.wrap z = z.
Proof.
  unfold GoInt.in_range, GoInt.min_int, GoInt.max_int, GoInt.wrap.
  intros Hz. rewrite Z.mod_small; lia.
Qed.

(** ** The source context reader *)

Section Reader.

Variables start end_ : Z.

(** The invariant of the scanning loop: [currentLine] lines were read, and
    [pending] holds the lines from [currentLine + 1] on. *)
Lemma scan_window pending : forall currentLine lines,
  (0 <= currentLine)%Z ->
  (currentLine + Z.of_nat (List.length pending) <= GoInt.max_int)%Z ->
  scan pending false currentLine start end_ lines =
    ((lines ++
      firstn (Z.to_nat (end_ - Z.max start (currentLine + 1) + 1))
        (skipn (Z.to_nat (start - (currentLine + 1))) pending))%list, false).
Proof.
  induction pending as [|text pending IH]; intros cur lines Hcur Hlen.
  - cbn [scan]. now rewrite skipn_nil, firstn_nil, app_nil_r.
  - cbn [scan]. cbn [List.length] in Hlen.
    unfold GoInt.add. rewrite wrap_in_range
      by (unfold GoInt.in_range, GoInt.min_int, GoInt.max_int in *; lia).
    destruct (Z.ltb_spec end_ (cur + 1)) as [Hend|Hend].
    + (* past the window: break *)
      replace (Z.to_nat (end_ - Z.max start (cur + 1) + 1)) with O by lia.
      cbn [firstn].
      destruct (Z.leb_spec start (cur + 1)), (Z.leb_spec (cur + 1) end_);
        cbn [andb]; try lia; now rewrite app_nil_r.
    + rewrite IH by lia.
      destruct (Z.leb_spec start (cur + 1)) as [Hs|Hs];
        destruct (Z.leb_spec (cur + 1) end_); try lia; cbn [andb].
      * (* inside the window *)
        replace (Z.to_nat (start - (cur + 1))) with O by lia.
        replace (Z.to_nat (start - (cur + 1 + 1))) with O by lia.
        cbn [skipn].
        replace (Z.to_nat (end_ - Z.max start (cur + 1) + 1))
          with (S (Z.to_nat (end_ - Z.max start (cur + 1 + 1) + 1))) by lia.
        cbn [firstn]. now rewrite <- app_assoc.
      * (* before the window *)
        replace (Z.to_nat (start - (cur + 1)))
          with (S (Z.to_nat (start - (cur + 1 + 1)))) by lia.
        cbn [skipn].
        now replace (Z.max start (cur + 1 + 1)) with (Z.max start (cur + 1)) by lia.
Qed.

End Reader.

Lemma readSourceContextLines_readable fs path content centerLine radius :
  readable fs path content ->
  GoInt.in_range (centerLine - radius) ->
  GoInt.in_range (centerLine + radius) ->
  (Z.of_nat (List.length content) <= GoInt.max_int)%Z ->
  let startLine := Z.max 1 (centerLine - radius) in
  let window := lines_between content startLine (centerLine + radius) in
  readSourceContextLines fs path centerLine radius =
    match window with
    | [] => inr NoLinesInRange
    | _ :: _ => inl (window, startLine)
    end.
Proof.
  intros Hfs Hlo Hhi Hlen startLine window.
  unfold readSourceContextLines. rewrite Hfs. cbn [scan_lines scan_fails].
  unfold GoInt.sub, GoInt.add. rewrite !wrap_in_range by assumption.
  assert (Hstart : (if (centerLine - radius <? 1)%Z then 1%Z
                    else (centerLine - radius)%Z) = startLine).
  { subst startLine. destruct (Z.ltb_spec (centerLine - radius) 1); lia. }
  rewrite Hstart. rewrite scan_window by lia. cbn [app].
  replace (Z.max startLine (0 + 1)) with startLine by (subst startLine; lia).
  replace (startLine - (0 + 1))%Z with (startLine - 1)%Z by lia.
  fold (lines_between content startLine (centerLine + radius)). fold window.
  now destruct window.
Qed.

(** The [k]-th line of the window is the line of number [lo + k] of the
    file, as long as that number is at most [hi]. *)
Lemma lines_between_nth content lo hi k line :
  (1 <= lo)%Z ->
  nth_error (lines_between content lo hi) k = Some line <->
  (lo + Z.of_nat k <= hi)%Z /\
  nth_error content (Z.to_nat (lo + Z.of_nat k - 1)) = Some line.
Proof.
  intros Hlo. unfold lines_between.
  rewrite nth_error_firstn, nth_error_skipn.
  replace (Z.to_nat (lo + Z.of_nat k - 1)) with (Z.to_nat (lo - 1) + k)%nat by lia.
  destruct (Nat.ltb_spec k (Z.to_nat (hi - lo + 1))); split.
  - intros ->. split; [lia | reflexivity].
  - now intros [_ ->].
  - discriminate.
  - intros [Hk _]. lia.
Qed.

(** C3 (as amended). For a file that can be read, a center line and a
    radius whose difference and sum are values of [int]:
    [readSourceContextLines] yields [startLine = max(1, centerLine - radius)]
    and exactly the lines whose number lies in
    [[startLine, centerLine + radius]]; it fails when there is no such line,
    which is the case when [centerLine - radius] exceeds the length of the
    file. On a file of 20 lines, center 10 and radius 1 give the lines 9, 10
    and 11 from line 9, and center 1 gives the lines 1 and 2 from line 1. *)
Theorem readContext_window fs path content centerLine radius :
  readable fs path content ->
  GoInt.in_range (centerLine - radius) ->
  GoInt.in_range (centerLine + radius) ->
  (Z.of_nat (List.length content) <= GoInt.max_int)%Z ->
  let startLine := Z.max 1 (centerLine - radius) in
  let window := lines_between content startLine (centerLine + radius) in
  (window <> [] ->
     readSourceContextLines fs path centerLine radius = inl (window, startLine))
  /\ (window = [] ->
     readSourceContextLines fs path centerLine radius = inr NoLinesInRange)
  /\ (forall k line,
        nth_error window k = Some line <->
        (startLine + Z.of_nat k <= centerLine + radius)%Z /\
        nth_error content (Z.to_nat (startLine + Z.of_nat k - 1)) = Some line)
  /\ ((Z.of_nat (List.length content) < centerLine - radius)%Z ->
     readSourceContextLines fs path centerLine radius = inr NoLinesInRange)
  /\ (List.length content = 20%nat -> centerLine = 10%Z -> radius = 1%Z ->
     readSourceContextLines fs path centerLine radius =
       inl ([nth 8 content ""; nth 9 content ""; nth 10 content ""], 9%Z))
  /\ (List.length content = 20%nat -> centerLine = 1%Z -> radius = 1%Z ->
     readSourceContextLines fs path centerLine radius =
       inl ([nth 0 content ""; nth 1 content ""], 1%Z)).
Proof.
  intros Hfs Hlo Hhi Hlen startLine window.
  pose proof (readSourceContextLines_readable _ _ _ _ _ Hfs Hlo Hhi Hlen) as Hread.
  cbv zeta in Hread. fold startLine window in Hread.
  assert (Hempty : window = [] ->
            readSourceContextLines fs path centerLine radius = inr NoLinesInRange).
  { intros Hw. now rewrite Hread, Hw. }
  split; [|split; [|split; [|split; [|split]]]].
  - intros Hw. rewrite Hread. now destruct window.
  - exact Hempty.
  - intros k line. apply lines_between_nth. subst startLine. lia.
  - intros Hbeyond. apply Hempty. subst window. unfold lines_between.
    rewrite skipn_all2 by (subst startLine; lia). apply firstn_nil.
  - intros H20 -> ->. rewrite Hread. subst window startLine.
    do 21 (destruct content as [|? content]; try discriminate H20).
    reflexivity.
  - intros H20 -> ->. rewrite Hread. subst window startLine.
    do 21 (destruct content as [|? content]; try discriminate H20).
    reflexivity.
Qed.

Lemma readContext_window_witness :
  readSourceContextLines Examples.twenty_fs "main.go" 10 1 =
    inl (["line 9"; "line 10"; "line 11"], 9%Z).
Proof.
  refine (proj1 (proj2 (proj2 (proj2 (proj2
    (readContext_window Examples.twenty_fs "main.go" Examples.twenty_lines
       10 1 _ _ _ _))))) _ _ _);
    try reflexivity;
    unfold GoInt.in_range, GoInt.min_int, GoInt.max_int; simpl; lia.
Defined.

(** C3 as it was stated fails for the center line just beyond the end of
    the file: line 21 of a file of 20 lines, with radius 1, is no error;
    the result is line 20. *)
Lemma readContext_beyond_end_counterexample :
  readable Examples.twenty_fs "main.go" Examples.twenty_lines /\
  List.length Examples.twenty_lines = 20%nat /\
  (Z.of_nat (List.length Examples.twenty_lines) < 21)%Z /\
  readSourceContextLines Examples.twenty_fs "main.go" 21 1 =
    inl (["line 20"], 20%Z) /\
  ~ (exists err : ReadError,
       readSourceContextLines Examples.twenty_fs "main.go" 21 1 = inr err).
Proof.
  repeat split; try reflexivity.
  intros [err Herr]. vm_compute in Herr. discriminate Herr.
Qed.

(** ** The heap of the chain-aware edition *)

Section HeapFacts.

Import Chain.
Local Open Scope list_scope.

Lemma set_cause_last (h : Heap) node err :
  set_cause (h ++ [node]) (List.length h) err =
  (h ++ [mkError (Msg node) (Frames node) err])%list.
Proof.
  induction h as [|n h IH]; cbn [set_cause app List.length]; [reflexivity|].
  now rewrite IH.
Qed.

Lemma newError_eq stk msg skip h :
  newError stk msg skip h =
  ((h ++ [mkError msg (captureFrames (callers_from stk skip)) None])%list,
   List.length h).
Proof. reflexivity. Qed.

Lemma Wrap_eq stk c msg h :
  Wrap stk (Some c) msg h =
  ((h ++ [mkError msg (captureFrames (callers_from stk 2)) (Some c)])%list,
   Some (List.length h)).
Proof.
  unfold Wrap. rewrite newError_eq. now rewrite set_cause_last.
Qed.

Lemma nth_error_snoc_old (h : Heap) node p :
  p < List.length h -> nth_error (h ++ [node]) p = nth_error h p.
Proof. intros Hp. now apply nth_error_app1. Qed.

Lemma nth_error_snoc_new (h : Heap) node :
  nth_error (h ++ [node]) (List.length h) = Some node.
Proof. rewrite nth_error_app2, Nat.sub_diag by lia. reflexivity. Qed.

(** Induction over an error of another package and what it wraps. *)
Lemma error_induction (P : error -> Prop)
    (Hptr : forall p, P (TracerrError p))
    (Hleaf : forall msg, P (ForeignError msg None))
    (Hwrap : forall msg e, P e -> P (ForeignError msg (Some e)))
    (e : error) : P e.
Proof.
  revert e. fix IH 1. intros [p|msg [e'|]].
  - apply Hptr.
  - apply Hwrap, IH.
  - apply Hleaf.
Qed.

Lemma live_mono e : forall m n, m <= n -> live m e -> live n e.
Proof.
  induction e as [[p|]|msg|msg e IH] using error_induction;
    intros m n Hmn; cbn [live]; try tauto; [lia | apply IH; exact Hmn].
Qed.

Lemma heap_ok_nil : heap_ok [].
Proof. intros [|p] node c H; discriminate H. Qed.

Lemma heap_ok_snoc h node :
  heap_ok h ->
  (forall c, cause node = Some c -> live (List.length h) c) ->
  heap_ok (h ++ [node]).
Proof.
  intros Hh Hnode p n c Hp Hc.
  destruct (Nat.lt_ge_cases p (List.length h)) as [Hlt|Hge].
  - rewrite nth_error_snoc_old in Hp by exact Hlt. eauto.
  - rewrite nth_error_app2 in Hp by exact Hge.
    destruct (p - List.length h) as [|k] eqn:Hk; cbn in Hp.
    + injection Hp as <-. replace p with (List.length h) by lia. auto.
    + destruct k; discriminate Hp.
Qed.

Lemma heap_ok_New stk msg h : heap_ok h -> heap_ok (fst (New stk msg h)).
Proof.
  intros Hh. apply heap_ok_snoc; [exact Hh | discriminate].
Qed.

Lemma heap_ok_Wrap stk c msg h :
  heap_ok h -> live (List.length h) c -> heap_ok (fst (Wrap stk (Some c) msg h)).
Proof.
  intros Hh Hc. rewrite Wrap_eq. apply heap_ok_snoc; [exact Hh|].
  cbn. intros c' [= <-]. exact Hc.
Qed.

Lemma heap_ok_Errorf {Arg : Type} (fmt_Sprintf : string -> list Arg -> string)
    stk format args h :
  heap_ok h -> heap_ok (fst (Errorf fmt_Sprintf stk format args h)).
Proof.
  intros Hh. apply heap_ok_snoc; [exact Hh | discriminate].
Qed.

Lemma heap_ok_Wrapf {Arg : Type} (fmt_Sprintf : string -> list Arg -> string)
    stk c format args h :
  heap_ok h -> live (List.length h) c ->
  heap_ok (fst (Wrapf fmt_Sprintf stk (Some c) format args h)).
Proof.
  intros Hh Hc. unfold Wrapf. rewrite newError_eq, set_cause_last.
  apply heap_ok_snoc; [exact Hh|].
  cbn. intros c' [= <-]. exact Hc.
Qed.

(** The node that a constructor returns is a node of the new heap. *)
Lemma New_live stk msg h :
  live (List.length (fst (New stk msg h)))
    (TracerrError (Some (snd (New stk msg h)))).
Proof.
  unfold New. rewrite newError_eq. cbn [fst snd live].
  rewrite length_app. cbn. lia.
Qed.

Lemma Wrap_live stk c msg h :
  live (List.length (fst (Wrap stk (Some c) msg h)))
    (TracerrError (snd (Wrap stk (Some c) msg h))).
Proof.
  rewrite Wrap_eq. cbn [fst snd live]. rewrite length_app. cbn. lia.
Qed.

(** A message does not depend on the nodes allocated later. *)
Lemma error_Error_snoc h node : heap_ok h ->
  forall fuel e, live (List.length h) e ->
  error_Error fuel (h ++ [node]) e = error_Error fuel h e.
Proof.
  intros Hh fuel. induction fuel as [|fuel IH]; intros [[p|]|msg inner] He;
    cbn [error_Error]; try reflexivity.
  cbn [live] in He. rewrite nth_error_snoc_old by exact He.
  destruct (nth_error h p) as [n|] eqn:Hn; [|reflexivity].
  destruct (cause n) as [c|] eqn:Hc; [|reflexivity].
  rewrite IH; [reflexivity|].
  eapply live_mono; [|eapply Hh; eassumption]. lia.
Qed.

(** With fuel for every node of the heap, [Error] returns. *)
Lemma error_Error_total h : heap_ok h ->
  forall fuel e, live fuel e -> live (List.length h) e ->
  exists msg, error_Error fuel h e = Some msg.
Proof.
  intros Hh fuel. induction fuel as [|fuel IH]; intros [[p|]|msg inner] He Hl;
    cbn [error_Error]; cbn [live] in He, Hl; try lia; try contradiction; eauto.
  destruct (nth_error h p) as [n|] eqn:Hn.
  - destruct (cause n) as [c|] eqn:Hc; [|eauto].
    pose proof (Hh _ _ _ Hn Hc) as Hlive.
    destruct (IH c) as [s Hs].
    + eapply live_mono; [|exact Hlive]. lia.
    + eapply live_mono; [|exact Hlive]. lia.
    + rewrite Hs. eauto.
  - apply nth_error_None in Hn. lia.
Qed.

End HeapFacts.

Create HintDb tracerr.
#[export] Hint Resolve heap_ok_nil heap_ok_New heap_ok_Wrap heap_ok_Errorf
  heap_ok_Wrapf New_live Wrap_live : tracerr.

(** ** The constructors *)

(** C1. Wrapping an error [E1] with the message [M2] yields a new node
    [E2]: [E2.Unwrap()] is [E1]; [E2.Error()] is [M2], a colon and a space,
    and [E1.Error()]; no node allocated before, [E1] among them, is changed.
    For an error of a heap built by the constructors, the message of [E1]
    is what it was before the wrap, and both messages are returned. *)
Theorem Wrap_Unwrap_Error stk h E1 M2 :
  exists h' E2,
    Chain.Wrap stk (Some E1) M2 h = (h', Some E2)
    /\ Chain.Error_Unwrap h' (Some E2) = Some (Some E1)
    /\ (forall fuel,
          Chain.Error_Error (S fuel) h' (Some E2)
          = option_map (fun M1 => M2 ++ ": " ++ M1) (Chain.error_Error fuel h' E1))
    /\ (forall p, p < List.length h -> nth_error h' p = nth_error h p)
    /\ (Chain.heap_ok h -> Chain.live (List.length h) E1 ->
        (forall fuel, Chain.error_Error fuel h' E1 = Chain.error_Error fuel h E1)
        /\ forall fuel, List.length h <= fuel ->
             exists M1,
               Chain.error_Error fuel h E1 = Some M1 /\
               Chain.Error_Error (S fuel) h' (Some E2) = Some (M2 ++ ": " ++ M1)).
Proof.
  rewrite Wrap_eq. eexists _, _. split; [reflexivity|].
  assert (Hmsg : forall fuel,
            Chain.Error_Error (S fuel)
              (h ++ [Chain.mkError M2 (Chain.captureFrames (callers_from stk 2))
                       (Some E1)])%list (Some (List.length h))
            = option_map (fun M1 => M2 ++ ": " ++ M1)
                (Chain.error_Error fuel
                   (h ++ [Chain.mkError M2
                            (Chain.captureFrames (callers_from stk 2))
                            (Some E1)])%list E1)).
  { intros fuel. unfold Chain.Error_Error. cbn [Chain.error_Error].
    rewrite nth_error_snoc_new. cbn [Chain.cause Chain.Msg].
    now destruct (Chain.error_Error fuel _ E1). }
  split; [|split; [|split]].
  - cbn [Chain.Error_Unwrap]. now rewrite nth_error_snoc_new.
  - exact Hmsg.
  - intros p Hp. now apply nth_error_snoc_old.
  - intros Hh HE1. split.
    + intros fuel. now apply error_Error_snoc.
    + intros fuel Hfuel.
      destruct (error_Error_total h Hh fuel E1) as [M1 HM1];
        [eapply live_mono; eassumption | assumption |].
      exists M1. split; [exact HM1|].
      rewrite Hmsg, error_Error_snoc by assumption. now rewrite HM1.
Qed.

Lemma Wrap_Unwrap_Error_witness :
  exists h' E2,
    Chain.Wrap Examples.wrap_stack (Some Examples.root_error) "context"
      Examples.root_heap = (h', Some E2)
    /\ Chain.Error_Unwrap h' (Some E2) = Some (Some Examples.root_error)
    /\ Chain.Error_Error 2 h' (Some E2) = Some "context: root cause"
    /\ nth_error h' 0 = nth_error Examples.root_heap 0.
Proof.
  destruct (Wrap_Unwrap_Error Examples.wrap_stack Examples.root_heap
              Examples.root_error "context")
    as (h' & E2 & Hwrap & Hunwrap & _ & Hold & Hmsg).
  exists h', E2. split; [exact Hwrap|]. split; [exact Hunwrap|]. split.
  - destruct Hmsg as [_ Hmsg].
    + unfold Examples.root_heap. auto with tracerr.
    + simpl. lia.
    + destruct (Hmsg 1) as (M1 & HM1 & HE2); [simpl; lia|].
      vm_compute in HM1. injection HM1 as <-. exact HE2.
  - apply Hold. simpl. lia.
Defined.

(** C6. [Wrap] and [Wrapf] of the nil error return nil: no node is
    allocated, the heap is what it was, whatever the stack is. *)
Theorem Wrap_nil_is_nil {Arg : Type} (fmt_Sprintf : string -> list Arg -> string)
    stk M format args h :
  Chain.Wrap stk None M h = (h, None) /\
  Chain.Wrapf fmt_Sprintf stk None format args h = (h, None).
Proof. split; reflexivity. Qed.

(** C7. The message of [New(M)] is [M], in both editions. *)
Theorem New_Error_is_message stk M h :
  (forall fuel,
     Chain.Error_Error (S fuel) (fst (Chain.New stk M h))
       (Some (snd (Chain.New stk M h))) = Some M)
  /\ Single.Error_Error (Single.New stk M) = M.
Proof.
  split; [|reflexivity].
  intros fuel. unfold Chain.New. rewrite newError_eq. cbn [fst snd].
  unfold Chain.Error_Error. cbn [Chain.error_Error].
  now rewrite nth_error_snoc_new.
Qed.

(** ** Frame capture *)

(** The walk of the chain-aware edition records the levels before the
    first one of the runtime. *)
Lemma captureFrames_stops levels :
  exists before after,
    levels = (before ++ after)%list
    /\ Chain.captureFrames levels = map frame_of before
    /\ Forall user_level before
    /\ (after = [] \/
        exists c rest, after = c :: rest /\
                       strings_HasPrefix (funcName c) "runtime." = true).
Proof.
  induction levels as [|c levels (before & after & Hl & Hf & Hb & Ha)].
  - exists [], []. repeat split; auto.
  - cbn [Chain.captureFrames].
    destruct (strings_HasPrefix (funcName c) "runtime.") eqn:Hc.
    + exists [], (c :: levels). repeat split; eauto.
    + exists (c :: before), after. subst levels. rewrite Hf.
      repeat split; auto.
Qed.

Lemma captureFrames_user levels :
  Forall (fun f => strings_HasPrefix (Function f) "runtime." = false)
    (Chain.captureFrames levels).
Proof.
  induction levels as [|c levels IH]; cbn [Chain.captureFrames]; [constructor|].
  destruct (strings_HasPrefix (funcName c) "runtime.") eqn:Hc; constructor.
  - exact Hc.
  - exact IH.
Qed.

Lemma Single_captureFrames_all levels :
  Single.captureFrames levels = map frame_of levels.
Proof.
  induction levels as [|c levels IH]; cbn; [reflexivity | now rewrite IH].
Qed.

(** C2 (as amended). In the chain-aware edition the frames of an error
    made by [New], [Errorf], [Wrap] or [Wrapf] are the levels of the stack,
    from the caller on, that come before the first level whose name starts
    with "runtime."; no frame has such a name. The single-node edition has
    no such stop: it records every level. *)
Theorem capture_stops_at_runtime {Arg : Type}
    (fmt_Sprintf : string -> list Arg -> string) stk h msg format args cause :
  let frames := Chain.captureFrames (callers_from stk 2) in
  Forall (fun f => strings_HasPrefix (Function f) "runtime." = false) frames
  /\ (exists before after,
        callers_from stk 2 = (before ++ after)%list
        /\ frames = map frame_of before
        /\ Forall user_level before
        /\ (after = [] \/
            exists c rest, after = c :: rest /\
                           strings_HasPrefix (funcName c) "runtime." = true))
  /\ option_map Chain.Frames
       (nth_error (fst (Chain.New stk msg h)) (snd (Chain.New stk msg h)))
     = Some frames
  /\ option_map Chain.Frames
       (nth_error (fst (Chain.Errorf fmt_Sprintf stk format args h))
          (snd (Chain.Errorf fmt_Sprintf stk format args h)))
     = Some frames
  /\ (exists e, snd (Chain.Wrap stk (Some cause) msg h) = Some e /\
        option_map Chain.Frames
          (nth_error (fst (Chain.Wrap stk (Some cause) msg h)) e) = Some frames)
  /\ (exists e,
        snd (Chain.Wrapf fmt_Sprintf stk (Some cause) format args h) = Some e /\
        option_map Chain.Frames
          (nth_error (fst (Chain.Wrapf fmt_Sprintf stk (Some cause) format args h)) e)
        = Some frames)
  /\ Single.Frames (Single.New stk msg) = map frame_of (callers_from stk 2).
Proof.
  intros frames.
  split; [apply captureFrames_user|].
  split; [apply captureFrames_stops|].
  split; [|split; [|split; [|split]]].
  - unfold Chain.New. rewrite newError_eq. cbn [fst snd].
    now rewrite nth_error_snoc_new.
  - unfold Chain.Errorf. rewrite newError_eq. cbn [fst snd].
    now rewrite nth_error_snoc_new.
  - rewrite Wrap_eq. cbn [fst snd]. eexists. split; [reflexivity|].
    now rewrite nth_error_snoc_new.
  - unfold Chain.Wrapf. rewrite newError_eq, set_cause_last. cbn [fst snd].
    eexists. split; [reflexivity|]. now rewrite nth_error_snoc_new.
  - apply Single_captureFrames_all.
Qed.

(** C2 as it was stated fails in the single-node edition: the frames of
    [New], called in [main.Gamma], go on into the runtime. *)
Lemma capture_runtime_counterexample :
  map Function (Single.Frames (Single.New Examples.new_stack "boom")) =
    ["main.Gamma"; "main.main"; "runtime.main"; "runtime.goexit"]
  /\ ~ Forall (fun f => strings_HasPrefix (Function f) "runtime." = false)
         (Single.Frames (Single.New Examples.new_stack "boom")).
Proof.
  split; [reflexivity|].
  intros H. rewrite Forall_forall in H.
  specialize (H (mkFrame "/usr/lib/go/src/runtime/proc.go" 283 "runtime.main")).
  cbn in H. discriminate H. auto.
Qed.

(** ** The loop over the highlighted lines *)

Section SourceLines.

Variables (lines : list string) (startLine errorLineIndex : Z) (width : nat).

Lemma count_site_cons s w out :
  count_site s (w :: out) =
  ((if Site_eqb (fst w) s then 1 else 0) + count_site s out)%nat.
Proof.
  unfold count_site. cbn [filter]. now destruct (Site_eqb (fst w) s).
Qed.

Lemma count_site_app s out out' :
  count_site s (out ++ out')%list = (count_site s out + count_site s out')%nat.
Proof. unfold count_site. now rewrite filter_app, length_app. Qed.

(** The chain-aware edition prints one source line for each highlighted
    line whose index is an index of [lines]. *)
Lemma Chain_printLines_count hls : forall i,
  count_site SourceLine
    (Chain.printLines hls i lines startLine errorLineIndex width)
  = Nat.min (List.length hls) (List.length lines - i).
Proof.
  induction hls as [|hLine hls IH]; intros i; cbn [Chain.printLines List.length].
  - reflexivity.
  - destruct (Nat.leb_spec (List.length lines) i).
    + rewrite IH. lia.
    + rewrite count_site_cons, IH. cbn [fst Site_eqb sourceLine]. lia.
Qed.

(** The highlighted lines beyond the last index of [lines] are dropped. *)
Lemma Chain_printLines_surplus hls : forall i,
  Chain.printLines hls i lines startLine errorLineIndex width =
  Chain.printLines (firstn (List.length lines - i) hls) i lines
    startLine errorLineIndex width.
Proof.
  induction hls as [|hLine hls IH]; intros i.
  - now rewrite firstn_nil.
  - cbn [Chain.printLines].
    destruct (Nat.leb_spec (List.length lines) i) as [Hi|Hi].
    + rewrite IH. replace (List.length lines - i) with 0 by lia.
      replace (List.length lines - S i) with 0 by lia. reflexivity.
    + replace (List.length lines - i) with (S (List.length lines - S i)) by lia.
      cbn [firstn Chain.printLines].
      destruct (Nat.leb_spec (List.length lines) i); [lia|].
      now rewrite <- IH.
Qed.

(** In the single-node edition the index [lines[i]] is in range whenever
    it is evaluated: the loop does not panic. *)
Lemma Single_printLines_total hls : forall i,
  exists out,
    Single.printLines hls i lines startLine errorLineIndex width = Some out
    /\ count_site SourceLine out
       = Nat.min (List.length hls) (List.length lines - i).
Proof.
  induction hls as [|hLine hls IH]; intros i; cbn [Single.printLines List.length].
  - exists []. split; reflexivity.
  - destruct (IH (S i)) as (out & Hout & Hcount). rewrite Hout.
    destruct (Nat.leb_spec (List.length lines) i) as [Hi|Hi].
    + exists out. split; [reflexivity|]. rewrite Hcount. lia.
    + destruct (nth_error lines i) as [line|] eqn:Hline;
        [|apply nth_error_None in Hline; lia].
      destruct (Z.of_nat i =? errorLineIndex)%Z; cbn [option_map];
        eexists; (split; [reflexivity|]);
        rewrite count_site_cons; cbn [fst Site_eqb];
        rewrite ?count_site_app, Hcount; cbn [fst Site_eqb count_site filter List.length Single.caretRow sourceLine]; lia.
Qed.

Lemma Single_printLines_surplus hls : forall i,
  Single.printLines hls i lines startLine errorLineIndex width =
  Single.printLines (firstn (List.length lines - i) hls) i lines
    startLine errorLineIndex width.
Proof.
  induction hls as [|hLine hls IH]; intros i.
  - now rewrite firstn_nil.
  - cbn [Single.printLines].
    destruct (Nat.leb_spec (List.length lines) i) as [Hi|Hi].
    + rewrite IH. replace (List.length lines - i) with 0 by lia.
      replace (List.length lines - S i) with 0 by lia. reflexivity.
    + replace (List.length lines - i) with (S (List.length lines - S i)) by lia.
      cbn [firstn Single.printLines].
      destruct (Nat.leb_spec (List.length lines) i); [lia|].
      now rewrite <- IH.
Qed.

(** The line of the frame, when it is printed, is followed by its caret
    row. *)
Lemma Single_printLines_caret hls : forall i0 i line hLine,
  (i0 <= i)%nat ->
  nth_error hls (i - i0) = Some hLine ->
  nth_error lines i = Some line ->
  Z.of_nat i = errorLineIndex ->
  exists before after,
    Single.printLines hls i0 lines startLine errorLineIndex width =
    Some (before ++
          [sourceLine true width (GoInt.add startLine (Z.of_nat i)) hLine;
           Single.caretRow width line] ++ after)%list.
Proof.
  induction hls as [|hLine0 hls IH]; intros i0 i line hLine Hi Hh Hl Hidx.
  - destruct (i - i0); discriminate Hh.
  - cbn [Single.printLines].
    assert (Hlen : (i < List.length lines)%nat)
      by (apply nth_error_Some; congruence).
    destruct (Nat.leb_spec (List.length lines) i0); [lia|].
    destruct (Single_printLines_total hls (S i0)) as (rest & Hrest & _).
    destruct (Nat.eq_dec i i0) as [->|Hne].
    + rewrite Nat.sub_diag in Hh. injection Hh as ->.
      rewrite Hidx, Z.eqb_refl, Hl, Hrest. cbn [option_map].
      exists [], rest. reflexivity.
    + destruct (i - i0) as [|k] eqn:Hk; [lia|]. cbn [nth_error] in Hh.
      destruct (IH (S i0) i line hLine) as (before & after & Hout);
        [lia | now replace (i - S i0) with k by lia | assumption | assumption |].
      rewrite Hout.
      destruct (Z.eqb_spec (Z.of_nat i0) errorLineIndex); [lia|].
      eexists (_ :: before), after. reflexivity.
Qed.

End SourceLines.

(** C10. The source lines printed for a frame are at most the lines that
    the context read returned: the loops print one source line for each
    highlighted line whose index is an index of [lines] and drop the
    others, and the index [lines[i]] of the single-node edition is never
    out of range (the loop returns). *)
Theorem source_lines_within_bounds fs hl frame hls lines startLine
    errorLineIndex width :
  (count_site SourceLine
     (Chain.printLines hls 0 lines startLine errorLineIndex width)
   = Nat.min (List.length hls) (List.length lines)
   /\ Chain.printLines hls 0 lines startLine errorLineIndex width
      = Chain.printLines (firstn (List.length lines) hls) 0 lines startLine
          errorLineIndex width)
  /\ (exists out,
        Single.printLines hls 0 lines startLine errorLineIndex width = Some out
        /\ count_site SourceLine out = Nat.min (List.length hls) (List.length lines)
        /\ Single.printLines (firstn (List.length lines) hls) 0 lines startLine
             errorLineIndex width = Some out)
  /\ match readSourceContextLines fs (File frame) (Line frame) 1 with
     | inl (read, _) =>
         count_site SourceLine (Chain.printFrame fs hl frame) <= List.length read
         /\ exists out, Single.printFrame fs hl frame = Some out
                        /\ count_site SourceLine out <= List.length read
     | inr _ =>
         count_site SourceLine (Chain.printFrame fs hl frame) = 0
         /\ exists out, Single.printFrame fs hl frame = Some out
                        /\ count_site SourceLine out = 0
     end.
Proof.
  split; [|split].
  - split.
    + rewrite Chain_printLines_count. now rewrite Nat.sub_0_r.
    + rewrite Chain_printLines_surplus at 1. now rewrite Nat.sub_0_r.
  - destruct (Single_printLines_total lines startLine errorLineIndex width hls 0)
      as (out & Hout & Hcount).
    exists out. rewrite Nat.sub_0_r in Hcount. repeat split; try assumption.
    rewrite Single_printLines_surplus in Hout. now rewrite Nat.sub_0_r in Hout.
  - unfold Chain.printFrame, Single.printFrame.
    destruct (readSourceContextLines fs (File frame) (Line frame) 1)
      as [[read start]|err].
    + split.
      * rewrite count_site_cons, Chain_printLines_count. cbn. lia.
      * match goal with
        | |- context [Single.printLines ?h 0 ?l ?s ?e ?w] =>
            destruct (Single_printLines_total l s e w h 0) as (out & -> & Hcount)
        end.
        eexists. split; [reflexivity|].
        rewrite count_site_cons, Hcount. cbn. lia.
    + split; [reflexivity|]. eexists. split; reflexivity.
Qed.

(** ** The caret row *)

Lemma count_byte_app b s t :
  count_byte b (s ++ t) = (count_byte b s + count_byte b t)%nat.
Proof.
  induction s as [|c s IH]; cbn [count_byte append]; [reflexivity|].
  rewrite IH. lia.
Qed.

Lemma count_byte_Repeat_same b n :
  count_byte b (strings_Repeat (String b "") n) = n.
Proof.
  induction n as [|n IH]; cbn [strings_Repeat count_byte append]; [reflexivity|].
  now rewrite Ascii.eqb_refl, IH.
Qed.

Lemma count_byte_Repeat_other b c n :
  Ascii.eqb c b = false ->
  count_byte b (strings_Repeat (String c "") n) = 0.
Proof.
  intros Hc. induction n as [|n IH]; cbn [strings_Repeat count_byte append];
    [reflexivity|]. now rewrite Hc, IH.
Qed.

Lemma caretRow_carets width line :
  count_byte "^" (snd (Single.caretRow width line)) = String.length line.
Proof.
  unfold Single.caretRow, boldGray, red. cbn [snd].
  rewrite !count_byte_app, count_byte_Repeat_same,
    (count_byte_Repeat_other "^" " ") by reflexivity.
  change (count_byte "^" colorBoldGray) with 0.
  change (count_byte "^" colorRed) with 0.
  change (count_byte "^" colorReset) with 0.
  change (count_byte "^" newline) with 0.
  change (count_byte "^" "  ") with 0.
  change (count_byte "^" " | ") with 0.
  lia.
Qed.

Lemma character_count_ascii line :
  all_ascii line = true -> character_count line = String.length line.
Proof.
  induction line as [|c line IH]; cbn [all_ascii character_count String.length];
    [reflexivity|].
  intros [Hc Hline]%andb_prop. rewrite IH by exact Hline.
  unfold is_continuation.
  apply Nat.ltb_lt in Hc.
  destruct (Nat.leb_spec 128 (nat_of_ascii c)); [lia | reflexivity].
Qed.

(** C8 (as amended). In the single-node edition, when the context of a
    frame is read and the line of the frame is printed, that line, in
    bold, is followed by a caret row whose number of carets is the number
    of bytes ([len]) of the line as read from the file; this is the number
    of its characters when the line holds single-byte characters only. *)
Theorem caret_row_length fs hl frame lines startLine i line hLine :
  readSourceContextLines fs (File frame) (Line frame) 1 = inl (lines, startLine) ->
  Z.of_nat i = GoInt.sub (Line frame) startLine ->
  nth_error lines i = Some line ->
  nth_error (strings_Split (highlightedBuf hl (strings_Join lines newline)) LF) i
    = Some hLine ->
  let width := lineNumWidth startLine lines in
  (exists before after,
     Single.printFrame fs hl frame =
     Some (before ++
           [sourceLine true width (GoInt.add startLine (Z.of_nat i)) hLine;
            Single.caretRow width line] ++ after)%list)
  /\ count_byte "^" (snd (Single.caretRow width line)) = String.length line
  /\ (all_ascii line = true ->
      count_byte "^" (snd (Single.caretRow width line)) = character_count line).
Proof.
  intros Hread Hidx Hline HhLine width.
  split; [|split].
  - unfold Single.printFrame. rewrite Hread.
    destruct (Single_printLines_caret lines startLine
                (GoInt.sub (Line frame) startLine) width
                (strings_Split (highlightedBuf hl (strings_Join lines newline)) LF)
                0 i line hLine) as (before & after & Hout);
      [lia | now rewrite Nat.sub_0_r | assumption | assumption |].
    subst width. rewrite Hout. cbn [option_map].
    exists (frameHeader frame :: before), after. reflexivity.
  - apply caretRow_carets.
  - intros Hascii. rewrite caretRow_carets. symmetry.
    now apply character_count_ascii.
Qed.

Lemma caret_row_length_witness :
  (exists before after,
     Single.printFrame Examples.app_fs Examples.failing_engine Examples.gamma_frame =
     Some (before ++
           [sourceLine true 2 10 "	return tracerr.New(reason)";
            Single.caretRow 2 "	return tracerr.New(reason)"] ++ after)%list)
  /\ count_byte "^" (snd (Single.caretRow 2 "	return tracerr.New(reason)")) = 27
  /\ (all_ascii "	return tracerr.New(reason)" = true ->
      count_byte "^" (snd (Single.caretRow 2 "	return tracerr.New(reason)"))
      = character_count "	return tracerr.New(reason)").
Proof.
  apply (caret_row_length Examples.app_fs Examples.failing_engine
           Examples.gamma_frame
           ["	}"; "	return tracerr.New(reason)"; "}"] 9 1
           "	return tracerr.New(reason)" "	return tracerr.New(reason)");
    reflexivity.
Defined.

(** C8 as it was stated fails on a line with a character of several
    bytes: the line [// e-acute] has 4 characters and gets 5 carets. *)
Lemma caret_characters_counterexample :
  readSourceContextLines Examples.accent_fs "/src/app/accent.go" 1 1
    = inl ([Examples.accent_line], 1%Z)
  /\ Single.printFrame Examples.accent_fs Examples.failing_engine
       Examples.accent_frame
     = Some [frameHeader Examples.accent_frame;
             sourceLine true 1 1 Examples.accent_line;
             Single.caretRow 1 Examples.accent_line]
  /\ count_byte "^" (snd (Single.caretRow 1 Examples.accent_line)) = 5
  /\ character_count Examples.accent_line = 4.
Proof. repeat split. Qed.

(** ** The walk over the cause chain *)

Section Report.

Import Chain.
Local Open Scope list_scope.

Variables (fs : FileSystem) (hl : Highlighter) (h : Heap).

(** Where the walk can go on, the node could be printed. *)
Lemma printNode_of_Unwrap e next :
  errors_Unwrap h e = Some next -> exists out, printNode fs hl h e = Some out.
Proof.
  destruct e as [[p|]|msg inner]; cbn; [|discriminate|eauto].
  destruct (nth_error h p); [eauto | discriminate].
Qed.

Lemma Fprint_loop_nil fuel isFirst :
  Fprint_loop fuel fs hl h None isFirst = Some [].
Proof. now destruct fuel. Qed.

(** The report of a chain: the nodes in the order of the chain, a
    separator before each but the first. *)
Lemma Fprint_loop_chain e l :
  cause_chain h e l ->
  forall fuel isFirst, List.length l <= fuel ->
  exists first rest,
    Forall2 (fun err out => printNode fs hl h err = Some out) l (first :: rest)
    /\ Fprint_loop fuel fs hl h (Some e) isFirst =
       Some ((if isFirst then [] else [separator])
             ++ first ++ flat_map (cons separator) rest).
Proof.
  induction 1 as [e Hend|e e' l Hstep Hchain IH]; intros fuel isFirst Hfuel;
    (destruct fuel as [|fuel]; [cbn in Hfuel; lia|]);
    cbn [Fprint_loop].
  - destruct (printNode_of_Unwrap e _ Hend) as [node Hnode].
    rewrite Hnode, Hend, Fprint_loop_nil.
    exists node, []. split; [repeat constructor; exact Hnode|].
    cbn [flat_map]. reflexivity.
  - destruct (printNode_of_Unwrap e _ Hstep) as [node Hnode].
    rewrite Hnode, Hstep.
    destruct (IH fuel false) as (first & rest & Hall & ->);
      [cbn in Hfuel; lia|].
    exists node, (first :: rest). split; [constructor; assumption|].
    cbn [flat_map app]. reflexivity.
Qed.


(** No write of a node is a separator, by its place or by its text. *)
Lemma printLines_plain lines startLine idx width hls : forall i,
  Forall plain_write (printLines hls i lines startLine idx width).
Proof.
  induction hls as [|hLine hls IH]; intros i; cbn [printLines]; [constructor|].
  destruct (List.length lines <=? i)%nat; [apply IH|].
  constructor; [|apply IH].
  split; [reflexivity|].
  unfold sourceLine, gutter.
  now destruct (Z.of_nat i =? idx)%Z.
Qed.

Lemma printFrame_plain frame : Forall plain_write (printFrame fs hl frame).
Proof.
  unfold printFrame. constructor; [split; reflexivity|].
  destruct (readSourceContextLines fs (File frame) (Line frame) 1)
    as [[lines start]|err].
  - apply printLines_plain.
  - repeat constructor.
Qed.

Lemma printNode_plain e out :
  printNode fs hl h e = Some out -> Forall plain_write out.
Proof.
  destruct e as [[p|]|msg inner]; cbn [printNode]; try discriminate.
  - destruct (nth_error h p) as [node|]; [|discriminate].
    intros [= <-]. constructor; [split; reflexivity|].
    induction (Frames node) as [|frame frames IH]; cbn [flat_map];
      [constructor|].
    apply Forall_app. split; [apply printFrame_plain | exact IH].
  - intros [= <-]. repeat constructor.
Qed.

Lemma plain_counts out :
  Forall plain_write out ->
  count_site Separator out = 0 /\ count_text (snd separator) out = 0.
Proof.
  induction 1 as [|w out [Hsite Htext] _ [IHs IHt]]; [split; reflexivity|].
  unfold count_site, count_text in *. cbn [filter].
  rewrite Hsite, Htext. now split.
Qed.

Lemma count_text_cons text w out :
  count_text text (w :: out) =
  (if String.eqb (snd w) text then 1 else 0) + count_text text out.
Proof.
  unfold count_text. cbn [filter]. now destruct (String.eqb (snd w) text).
Qed.

Lemma count_text_app text out out' :
  count_text text (out ++ out') = count_text text out + count_text text out'.
Proof. unfold count_text. now rewrite filter_app, length_app. Qed.

Lemma separators_counts nodes :
  Forall (Forall plain_write) nodes ->
  count_site Separator (flat_map (cons separator) nodes) = List.length nodes
  /\ count_text (snd separator) (flat_map (cons separator) nodes)
     = List.length nodes.
Proof.
  induction 1 as [|node nodes Hnode _ [IHs IHt]]; [split; reflexivity|].
  destruct (plain_counts node Hnode) as [Hs Ht].
  cbn [flat_map app List.length].
  rewrite count_site_cons, count_text_cons, count_site_app, count_text_app.
  rewrite String.eqb_refl, Hs, Ht, IHs, IHt. split; reflexivity.
Qed.

End Report.

(** C4. The report of a chain of [n] errors has [n - 1] separators, one
    before each node but the first, the nodes in the order of the chain,
    from the newest wrap to the oldest cause. A separator is the write of a
    line feed and of "Caused by: " between the codes of italic and of
    reset; the report holds [n - 1] writes of this text, and no other write
    at the place of the separator. A chain of 3 has 2. *)
Theorem caused_by_separators fs hl h e l :
  Chain.cause_chain h (Chain.TracerrError e) l ->
  forall fuel, List.length l <= fuel ->
  let text :=
    (String LF (String ESC "[3m") ++ "Caused by: " ++ String ESC "[0m")%string in
  exists first rest,
    Forall2 (fun err out => Chain.printNode fs hl h err = Some out) l (first :: rest)
    /\ Chain.Error_Fprint fuel fs hl h e
       = Some (first ++ flat_map (cons (Separator, text)) rest)%list
    /\ count_site Separator (first ++ flat_map (cons (Separator, text)) rest)%list
       = List.length l - 1
    /\ count_text text (first ++ flat_map (cons (Separator, text)) rest)%list
       = List.length l - 1
    /\ (List.length l = 3 ->
        count_text text (first ++ flat_map (cons (Separator, text)) rest)%list = 2)
    /\ strip_colors text = (String LF "Caused by: ")%string.
Proof.
  intros Hchain fuel Hfuel text.
  destruct (Fprint_loop_chain fs hl h _ _ Hchain fuel true Hfuel)
    as (first & rest & Hall & Hout).
  exists first, rest.
  assert (Hplain : Forall (Forall plain_write) (first :: rest)).
  { clear Hout Hchain Hfuel. revert Hall. generalize (first :: rest).
    induction 1 as [|err out l' outs Hnode _ IH]; constructor;
      [eapply printNode_plain; exact Hnode | exact IH]. }
  inversion Hplain as [|? ? Hfirst Hrest]; subst.
  destruct (plain_counts first Hfirst) as [Hs Ht].
  destruct (separators_counts rest Hrest) as [Hss Hst].
  assert (Hlen : List.length l = S (List.length rest))
    by (now rewrite (Forall2_length Hall)).
  assert (Hcount : count_site Separator
            (first ++ flat_map (cons Chain.separator) rest)%list
          = List.length l - 1)
    by (rewrite count_site_app, Hs, Hss, Hlen; lia).
  assert (Htext : count_text (snd Chain.separator)
            (first ++ flat_map (cons Chain.separator) rest)%list
          = List.length l - 1)
    by (rewrite count_text_app, Ht, Hst, Hlen; lia).
  (* the separator of the code is the write of [text] *)
  assert (Hsep : Chain.separator = (Separator, text)) by reflexivity.
  rewrite Hsep in Hout, Hcount, Htext. cbn [snd] in Htext.
  split; [exact Hall|]. split; [exact Hout|]. split; [exact Hcount|].
  split; [exact Htext|]. split.
  - intros H3. transitivity (List.length l - 1); [exact Htext | lia].
  - reflexivity.
Qed.

Lemma caused_by_separators_witness :
  exists first rest,
    Forall2 (fun err out =>
               Chain.printNode Examples.app_fs Examples.coloring_engine
                 Examples.chain_heap err = Some out)
      [Chain.TracerrError (Some 2); Chain.TracerrError (Some 1);
       Chain.TracerrError (Some 0)] (first :: rest)
    /\ Chain.Error_Fprint 3 Examples.app_fs Examples.coloring_engine
         Examples.chain_heap (Some 2)
       = Some (first ++ flat_map (cons Chain.separator) rest)%list
    /\ count_site Separator (first ++ flat_map (cons Chain.separator) rest)%list
       = 3 - 1
    /\ count_text
         (String LF (String ESC "[3m") ++ "Caused by: " ++ String ESC "[0m")%string
         (first ++ flat_map (cons Chain.separator) rest)%list
       = 3 - 1
    /\ (3 = 3 ->
        count_text
          (String LF (String ESC "[3m") ++ "Caused by: " ++ String ESC "[0m")%string
          (first ++ flat_map (cons Chain.separator) rest)%list = 2)
    /\ strip_colors
         (String LF (String ESC "[3m") ++ "Caused by: " ++ String ESC "[0m")%string
       = (String LF "Caused by: ")%string.
Proof.
  apply (caused_by_separators Examples.app_fs Examples.coloring_engine
           Examples.chain_heap (Some 2)
           [Chain.TracerrError (Some 2); Chain.TracerrError (Some 1);
            Chain.TracerrError (Some 0)]).
  - apply Chain.chain_step with (e' := Chain.TracerrError (Some 1));
      [reflexivity|].
    apply Chain.chain_step with (e' := Chain.TracerrError (Some 0));
      [reflexivity|].
    apply Chain.chain_end. reflexivity.
  - simpl. lia.
Defined.







(** ** Color codes, lines and blocks *)

Section Strings.

Lemma string_app_assoc (a b c : string) : (a ++ b) ++ c = a ++ b ++ c.
Proof. induction a as [|x a IH]; cbn; [reflexivity | now rewrite IH]. Qed.

Lemma string_app_nil_r (a : string) : a ++ "" = a.
Proof. induction a as [|x a IH]; cbn; [reflexivity | now rewrite IH]. Qed.

Lemma no_LF_app a b : no_LF (a ++ b) = no_LF a && no_LF b.
Proof.
  induction a as [|x a IH]; cbn; [reflexivity|].
  now rewrite IH, andb_assoc.
Qed.

Lemma rendered_cons w out : rendered (w :: out) = snd w ++ rendered out.
Proof.
  unfold rendered. destruct out as [|w' out]; cbn [map String.concat].
  - now rewrite string_app_nil_r.
  - reflexivity.
Qed.

Lemma rendered_app out out' : rendered (out ++ out') = rendered out ++ rendered out'.
Proof.
  induction out as [|w out IH]; [reflexivity|].
  cbn [app]. now rewrite !rendered_cons, IH, string_app_assoc.
Qed.

(** *** [strings.Split] and [strings.Join] *)

Lemma strings_Split_nonempty s sep : strings_Split s sep <> [].
Proof.
  destruct s as [|c s]; cbn; [discriminate|].
  destruct (Ascii.eqb c sep); [discriminate|].
  destruct (strings_Split s sep); discriminate.
Qed.

(** A prefix without line feed stays in the first piece. *)
Lemma strings_Split_app a s :
  no_LF a = true ->
  strings_Split (a ++ s) LF =
  match strings_Split s LF with
  | piece :: pieces => (a ++ piece) :: pieces
  | [] => []
  end.
Proof.
  induction a as [|c a IH]; cbn [append no_LF strings_Split].
  - intros _. now destruct (strings_Split s LF).
  - intros [Hc Ha]%andb_prop. apply negb_true_iff in Hc. rewrite Hc.
    rewrite IH by exact Ha.
    destruct (strings_Split s LF) eqn:Hs;
      [now apply strings_Split_nonempty in Hs | reflexivity].
Qed.

Lemma strings_Split_line a : no_LF a = true -> strings_Split a LF = [a].
Proof.
  intros Ha. rewrite <- (string_app_nil_r a) at 1.
  rewrite strings_Split_app by exact Ha. cbn. now rewrite string_app_nil_r.
Qed.

Lemma strings_Split_line_LF a s :
  no_LF a = true ->
  strings_Split (a ++ String LF s) LF = a :: strings_Split s LF.
Proof.
  intros Ha. rewrite strings_Split_app by exact Ha.
  cbn [strings_Split]. rewrite Ascii.eqb_refl. now rewrite string_app_nil_r.
Qed.

(** The lines of a block are the lines it was joined from. *)
Lemma strings_Split_Join lines :
  lines <> [] ->
  Forall (fun line => no_LF line = true) lines ->
  strings_Split (strings_Join lines newline) LF = lines.
Proof.
  intros Hne Hall. induction Hall as [|line lines Hline Hall IH];
    [contradiction|].
  unfold strings_Join in *. destruct lines as [|line' lines].
  - cbn [String.concat]. now apply strings_Split_line.
  - cbn [String.concat] in *. unfold newline at 1. cbn [append].
    rewrite strings_Split_line_LF by exact Hline.
    now rewrite IH by discriminate.
Qed.

(** A block that ends with a line feed has one more line, the empty one. *)
Lemma strings_Split_Join_LF lines :
  lines <> [] ->
  Forall (fun line => no_LF line = true) lines ->
  strings_Split (strings_Join lines newline ++ newline) LF = (lines ++ [""])%list.
Proof.
  intros Hne Hall. induction Hall as [|line lines Hline Hall IH];
    [contradiction|].
  unfold strings_Join in *. destruct lines as [|line' lines].
  - cbn [String.concat app]. unfold newline.
    now rewrite strings_Split_line_LF by exact Hline.
  - cbn [String.concat] in *. rewrite !string_app_assoc.
    unfold newline at 1. cbn [append].
    rewrite strings_Split_line_LF by exact Hline.
    now rewrite IH by discriminate.
Qed.

(** *** Stripping the color codes *)

Lemma step_LF st :
  step st LF = (pending_text st ++ newline, Outside).
Proof. destruct st; reflexivity. Qed.

(** A byte other than the line feed copies no line feed. *)
Lemma step_no_LF st c :
  pending_ok st -> Ascii.eqb c LF = false ->
  no_LF (fst (step st c)) = true /\ pending_ok (snd (step st c)).
Proof.
  unfold pending_ok. intros Hst Hc.
  assert (Hplain : forall st', no_LF (pending_text st') = true ->
            no_LF (fst (if Ascii.eqb c ESC then (pending_text st', AfterEsc)
                        else (pending_text st' ++ String c "", Outside))) = true
            /\ no_LF (pending_text
                 (snd (if Ascii.eqb c ESC then (pending_text st', AfterEsc)
                       else (pending_text st' ++ String c "", Outside)))) = true).
  { intros st' Hst'. destruct (Ascii.eqb c ESC); cbn [fst snd]; split;
      try reflexivity; try assumption.
    rewrite no_LF_app, Hst'. cbn. now rewrite Hc. }
  destruct st as [| |params]; cbn [step].
  - now apply Hplain.
  - destruct (Ascii.eqb c "["); [split; reflexivity | now apply Hplain].
  - destruct (is_param c).
    + split; [reflexivity|]. cbn [snd pending_text no_LF] in *.
      rewrite no_LF_app. cbn [no_LF]. rewrite Hc.
      cbn in Hst |- *. now rewrite Hst.
    + destruct (Ascii.eqb c "m"); [split; reflexivity | now apply Hplain].
Qed.

(** A line feed ends what is pending: what follows is stripped on its
    own. *)
Lemma strip_from_LF s : forall st t,
  strip_from st (s ++ String LF t) =
  strip_from st s ++ String LF (strip_from Outside t).
Proof.
  induction s as [|c s IH]; intros st t; cbn [append strip_from].
  - rewrite step_LF. cbn [fst snd]. now rewrite string_app_assoc.
  - now rewrite IH, string_app_assoc.
Qed.

(** So does the reset code. *)
Lemma strip_from_reset s : forall st t,
  strip_from st (s ++ colorReset ++ t) =
  strip_from st (s ++ colorReset) ++ strip_from Outside t.
Proof.
  induction s as [|c s IH]; intros st t.
  - destruct st as [| |params]; cbn; rewrite ?string_app_assoc;
      cbn; rewrite ?string_app_nil_r; reflexivity.
  - cbn [append strip_from]. now rewrite IH, string_app_assoc.
Qed.

(** Stripping goes line by line. *)
Lemma strings_Split_strip s : forall st,
  pending_ok st ->
  strings_Split (strip_from st s) LF =
  match strings_Split s LF with
  | piece :: pieces => strip_from st piece :: map strip_colors pieces
  | [] => []
  end.
Proof.
  induction s as [|c s IH]; intros st Hst.
  - cbn [strip_from strings_Split map]. now apply strings_Split_line.
  - cbn [strip_from strings_Split].
    destruct (Ascii.eqb c LF) eqn:Hc.
    + apply Ascii.eqb_eq in Hc. subst c. rewrite step_LF. cbn [fst snd].
      rewrite string_app_assoc. unfold newline. cbn [append].
      rewrite strings_Split_line_LF by exact Hst.
      cbn [strip_from map]. f_equal.
      rewrite IH by reflexivity.
      now destruct (strings_Split s LF).
    + destruct (step_no_LF st c Hst Hc) as [Hout Hnext].
      rewrite strings_Split_app by exact Hout.
      rewrite IH by exact Hnext.
      destruct (strings_Split s LF) as [|piece pieces] eqn:Hs;
        [now apply strings_Split_nonempty in Hs|].
      reflexivity.
Qed.

Lemma map_strip_Split s :
  map strip_colors (strings_Split s LF) = strings_Split (strip_colors s) LF.
Proof.
  unfold strip_colors. rewrite strings_Split_strip by reflexivity.
  now destruct (strings_Split s LF).
Qed.

End Strings.

(** ** Highlighted and plain source lines *)

Section Fallback.

Variables (lines : list string) (startLine errorLineIndex : Z) (width : nat).

(** A text that ends with the reset code, and a write that ends with a
    line feed, are stripped apart from what follows. *)
Lemma strip_colors_reset a t :
  strip_colors ((a ++ colorReset) ++ t) =
  strip_colors (a ++ colorReset) ++ strip_colors t.
Proof.
  unfold strip_colors. rewrite string_app_assoc. apply strip_from_reset.
Qed.

Lemma strip_colors_line a t :
  strip_colors ((a ++ newline) ++ t) = strip_colors a ++ newline ++ strip_colors t.
Proof.
  unfold strip_colors, newline. rewrite string_app_assoc. cbn [append].
  apply strip_from_LF.
Qed.

Lemma gutter_reset b n :
  exists a, gutter b width n = a ++ colorReset.
Proof.
  unfold gutter, boldGray, gray. destruct b; eexists;
    rewrite <- string_app_assoc; reflexivity.
Qed.

Lemma strip_sourceLine b n hLine t :
  strip_colors (snd (sourceLine b width n hLine) ++ t) =
  strip_colors (gutter b width n) ++ strip_colors hLine ++ newline
    ++ strip_colors t.
Proof.
  unfold sourceLine. cbn [snd].
  rewrite <- (string_app_assoc (gutter b width n) hLine newline).
  rewrite strip_colors_line.
  destruct (gutter_reset b n) as [a ->].
  now rewrite strip_colors_reset, string_app_assoc.
Qed.

Lemma strip_colors_line_end a :
  strip_colors (a ++ newline) = strip_colors a ++ newline.
Proof.
  rewrite <- (string_app_nil_r (a ++ newline)), strip_colors_line.
  cbn [strip_colors strip_from pending_text]. reflexivity.
Qed.

Lemma strip_caretRow line t :
  strip_colors (snd (Single.caretRow width line) ++ t) =
  strip_colors (snd (Single.caretRow width line)) ++ strip_colors t.
Proof.
  unfold Single.caretRow. cbn [snd].
  set (caretGutter := boldGray _). set (caretLine := red _).
  rewrite <- (string_app_assoc caretGutter caretLine newline).
  rewrite strip_colors_line, strip_colors_line_end.
  now rewrite !string_app_assoc.
Qed.

(** Highlighted lines that differ by color codes only give source lines
    that differ by color codes only. *)
Lemma Chain_printLines_strip hls1 : forall hls2 i,
  map strip_colors hls1 = map strip_colors hls2 ->
  strip_colors (rendered
    (Chain.printLines hls1 i lines startLine errorLineIndex width)) =
  strip_colors (rendered
    (Chain.printLines hls2 i lines startLine errorLineIndex width)).
Proof.
  induction hls1 as [|h1 hls1 IH]; intros [|h2 hls2] i Hmap;
    try discriminate Hmap; [reflexivity|].
  cbn [map] in Hmap. injection Hmap as Hh Hmap.
  cbn [Chain.printLines].
  destruct (List.length lines <=? i)%nat; [now apply IH|].
  rewrite !rendered_cons, !strip_sourceLine, Hh.
  now rewrite (IH hls2 (S i) Hmap).
Qed.

Lemma Single_printLines_strip hls1 : forall hls2 i,
  map strip_colors hls1 = map strip_colors hls2 ->
  option_map (fun out => strip_colors (rendered out))
    (Single.printLines hls1 i lines startLine errorLineIndex width) =
  option_map (fun out => strip_colors (rendered out))
    (Single.printLines hls2 i lines startLine errorLineIndex width).
Proof.
  induction hls1 as [|h1 hls1 IH]; intros [|h2 hls2] i Hmap;
    try discriminate Hmap; [reflexivity|].
  cbn [map] in Hmap. injection Hmap as Hh Hmap.
  cbn [Single.printLines].
  destruct (List.length lines <=? i)%nat; [now apply IH|].
  specialize (IH hls2 (S i) Hmap).
  destruct (Single.printLines hls1 (S i) lines startLine errorLineIndex width)
    as [out1|];
    destruct (Single.printLines hls2 (S i) lines startLine errorLineIndex width)
    as [out2|]; try discriminate IH.
  - cbn [option_map] in IH. injection IH as IH.
    destruct (Z.of_nat i =? errorLineIndex)%Z.
    + destruct (nth_error lines i) as [line|]; [|reflexivity].
      cbn [option_map app]. f_equal.
      rewrite !rendered_cons, !strip_sourceLine, !strip_caretRow, Hh.
      now rewrite IH.
    + cbn [option_map app]. f_equal.
      rewrite !rendered_cons, !strip_sourceLine, Hh. now rewrite IH.
  - now destruct (if (Z.of_nat i =? errorLineIndex)%Z
                  then option_map (fun line => [Single.caretRow width line])
                         (nth_error lines i)
                  else Some []).
Qed.

End Fallback.

Lemma readSourceContextLines_nonempty fs path centerLine context lines start :
  readSourceContextLines fs path centerLine context = inl (lines, start) ->
  lines <> [].
Proof.
  unfold readSourceContextLines. destruct (fs path) as [file|]; [|discriminate].
  destruct (scan _ _ _ _ _ _) as [collected failed].
  destruct failed; [discriminate|].
  destruct collected; cbn; [discriminate|].
  intros [= <- _]. discriminate.
Qed.

Lemma frameHeader_line frame :
  exists a, snd (frameHeader frame) = a ++ newline.
Proof.
  unfold frameHeader. cbn [snd]. eexists.
  rewrite <- !string_app_assoc. reflexivity.
Qed.

Lemma firstn_length_app {A : Type} (l l' : list A) :
  firstn (List.length l) (l ++ l')%list = l.
Proof.
  rewrite firstn_app, Nat.sub_diag, firstn_all. cbn [firstn]. apply app_nil_r.
Qed.

(** C9 (as amended). When the engine fails and wrote nothing, the buffer
    holds the block as it is, and
    the lines printed are the lines read. If the engine, where it
    succeeds, only adds color codes to the block (and may end it with a
    line feed), the report of the frame without its color codes is the same
    in both cases, in both editions; [printFrame] returns in both cases. *)
Theorem highlight_failure_keeps_text fs hl_fail hl_ok frame lines startLine colored :
  readSourceContextLines fs (File frame) (Line frame) 1 = inl (lines, startLine) ->
  Forall (fun line => no_LF line = true) lines ->
  hl_fail (strings_Join lines newline) = ("", true) ->
  hl_ok (strings_Join lines newline) = (colored, false) ->
  strip_colors colored = strip_colors (strings_Join lines newline)
  \/ strip_colors colored = strip_colors (strings_Join lines newline ++ newline) ->
  highlightedBuf hl_fail (strings_Join lines newline) = strings_Join lines newline
  /\ Chain.printFrame fs hl_fail frame
     = frameHeader frame
         :: Chain.printLines lines 0 lines startLine
              (GoInt.sub (Line frame) startLine) (lineNumWidth startLine lines)
  /\ strip_colors (rendered (Chain.printFrame fs hl_fail frame))
     = strip_colors (rendered (Chain.printFrame fs hl_ok frame))
  /\ exists out_fail out_ok,
       Single.printFrame fs hl_fail frame = Some out_fail
       /\ Single.printFrame fs hl_ok frame = Some out_ok
       /\ strip_colors (rendered out_fail) = strip_colors (rendered out_ok).
Proof.
  intros Hread Hlines Hfail Hok Hcolored.
  pose proof (readSourceContextLines_nonempty _ _ _ _ _ _ Hread) as Hne.
  set (block := strings_Join lines newline) in *.
  assert (Hbuf_fail : highlightedBuf hl_fail block = block)
    by (unfold highlightedBuf; now rewrite Hfail).
  assert (Hbuf_ok : highlightedBuf hl_ok block = colored)
    by (unfold highlightedBuf; now rewrite Hok).
  assert (Hsplit : strings_Split block LF = lines)
    by now apply strings_Split_Join.
  (* the first highlighted lines are the lines read, color codes apart *)
  assert (Hstrip : map strip_colors
                     (firstn (List.length lines) (strings_Split colored LF))
                   = map strip_colors lines).
  { rewrite <- firstn_map, map_strip_Split.
    destruct Hcolored as [-> | ->]; rewrite <- map_strip_Split.
    - now rewrite Hsplit, firstn_map, firstn_all.
    - subst block. rewrite strings_Split_Join_LF by assumption.
      now rewrite firstn_map, firstn_length_app. }
  destruct (frameHeader_line frame) as [header Hheader].
  split; [exact Hbuf_fail|]. split; [|split].
  - unfold Chain.printFrame. rewrite Hread. fold block.
    now rewrite Hbuf_fail, Hsplit.
  - unfold Chain.printFrame. rewrite Hread. fold block.
    rewrite Hbuf_fail, Hbuf_ok, Hsplit, !rendered_cons, Hheader,
      !strip_colors_line.
    do 2 f_equal.
    rewrite (Chain_printLines_surplus lines _ _ _ (strings_Split colored LF)).
    rewrite Nat.sub_0_r. symmetry. now apply Chain_printLines_strip.
  - unfold Single.printFrame. rewrite Hread. fold block.
    rewrite Hbuf_fail, Hbuf_ok, Hsplit.
    set (idx := GoInt.sub (Line frame) startLine).
    set (width := lineNumWidth startLine lines).
    pose proof (Single_printLines_strip lines startLine idx width
                  (firstn (List.length lines) (strings_Split colored LF))
                  lines 0 Hstrip) as Heq.
    rewrite <- (Nat.sub_0_r (List.length lines)) in Heq at 1.
    rewrite <- Single_printLines_surplus in Heq.
    destruct (Single_printLines_total lines startLine idx width lines 0)
      as (out_fail & Hout_fail & _).
    destruct (Single_printLines_total lines startLine idx width
                (strings_Split colored LF) 0) as (out_ok & Hout_ok & _).
    rewrite Hout_fail, Hout_ok in *. cbn [option_map] in *.
    injection Heq as Heq.
    eexists _, _. split; [reflexivity|]. split; [reflexivity|].
    rewrite !rendered_cons, Hheader, !strip_colors_line. now rewrite Heq.
Qed.

Lemma highlight_failure_keeps_text_witness :
  strip_colors (rendered
    (Chain.printFrame Examples.app_fs Examples.failing_engine Examples.gamma_frame))
  = strip_colors (rendered
    (Chain.printFrame Examples.app_fs Examples.coloring_engine Examples.gamma_frame)).
Proof.
  refine (proj1 (proj2 (proj2
    (highlight_failure_keeps_text Examples.app_fs Examples.failing_engine
       Examples.coloring_engine Examples.gamma_frame
       ["	}"; "	return tracerr.New(reason)"; "}"] 9
       (fst (Examples.coloring_engine
               (strings_Join ["	}"; "	return tracerr.New(reason)"; "}"] newline)))
       _ _ _ _ _)))).
  - reflexivity.
  - repeat constructor.
  - reflexivity.
  - reflexivity.
  - right. vm_compute. reflexivity.
Defined.

(** C9 as it was stated fails when the engine does not keep to these
    conditions. An engine that fails after it wrote "PART" leaves that
    text in the buffer, before the block: the first row is not the line
    read. An engine that succeeds and makes a carriage return a line feed
    cuts a line in two: the rows are not those of the failing case. *)
Lemma highlight_failure_counterexample :
  highlightedBuf MoreExamples.partial_engine
    (strings_Join ["	}"; "	return tracerr.New(reason)"; "}"] newline)
  = "PART" ++ strings_Join ["	}"; "	return tracerr.New(reason)"; "}"] newline
  /\ nth_error
       (Chain.printFrame Examples.app_fs MoreExamples.partial_engine
          Examples.gamma_frame) 1
     = Some (sourceLine false 2 9 "PART	}")
  /\ strip_colors (rendered
       (Chain.printFrame Examples.app_fs MoreExamples.partial_engine
          Examples.gamma_frame))
     <> strip_colors (rendered
       (Chain.printFrame Examples.app_fs Examples.coloring_engine
          Examples.gamma_frame))
  /\ strip_colors (rendered
       (Chain.printFrame MoreExamples.cr_fs Examples.failing_engine
          MoreExamples.cr_frame))
     <> strip_colors (rendered
       (Chain.printFrame MoreExamples.cr_fs MoreExamples.normalizing_engine
          MoreExamples.cr_frame)).
Proof.
  split; [reflexivity|]. split; [reflexivity|].
  split; intros Heq; vm_compute in Heq; discriminate Heq.
Qed.


From Stdlib Require DecimalPos DecimalFacts.

(** * Further properties *)

(** ** The reader on files that fail *)

Section ReaderErrors.

Variables start end_ : Z.

(** The lines collected do not depend on whether the scanner will fail. *)
Lemma scan_lines_any_status pending fails : forall currentLine lines,
  fst (scan pending fails currentLine start end_ lines) =
  fst (scan pending false currentLine start end_ lines).
Proof.
  induction pending as [|text pending IH]; intros cur lines; cbn [scan];
    [reflexivity|].
  destruct (end_ <? GoInt.add cur 1)%Z; [reflexivity | apply IH].
Qed.

(** The scanner's error is met when the scan reaches the end of what the
    scanner yields, that is when no line beyond the window is read. *)
Lemma scan_status pending fails : forall currentLine lines,
  (0 <= currentLine)%Z ->
  (currentLine + Z.of_nat (List.length pending) <= GoInt.max_int)%Z ->
  snd (scan pending fails currentLine start end_ lines) =
  fails && ((List.length pending =? 0)%nat
            || (currentLine + Z.of_nat (List.length pending) <=? end_)%Z).
Proof.
  induction pending as [|text pending IH]; intros cur lines Hcur Hlen;
    cbn [scan List.length] in *.
  - cbn. now rewrite andb_true_r.
  - unfold GoInt.add. rewrite wrap_in_range
      by (unfold GoInt.in_range, GoInt.min_int, GoInt.max_int in *; lia).
    destruct (Z.ltb_spec end_ (cur + 1)) as [Hend|Hend]; cbn [snd].
    + cbn [Nat.eqb orb].
      destruct (Z.leb_spec (cur + Z.of_nat (S (List.length pending))) end_);
        [lia | now rewrite andb_false_r].
    + rewrite IH by lia. cbn [Nat.eqb orb]. f_equal.
      destruct pending as [|text' pending]; cbn [List.length Nat.eqb orb].
      * destruct (Z.leb_spec (cur + Z.of_nat 1) end_); [reflexivity | lia].
      * destruct (Z.leb_spec (cur + 1 + Z.of_nat (S (List.length pending))) end_),
          (Z.leb_spec (cur + Z.of_nat (S (S (List.length pending)))) end_);
          try reflexivity; lia.
Qed.

End ReaderErrors.

(** The result of [readSourceContextLines] on any file that opens. *)
Lemma readSourceContextLines_opened fs path file centerLine context :
  fs path = Some file ->
  GoInt.in_range (centerLine - context) ->
  GoInt.in_range (centerLine + context) ->
  (Z.of_nat (List.length (scan_lines file)) <= GoInt.max_int)%Z ->
  let startLine := Z.max 1 (centerLine - context) in
  let window := lines_between (scan_lines file) startLine (centerLine + context) in
  readSourceContextLines fs path centerLine context =
    if scan_fails file
       && ((List.length (scan_lines file) =? 0)%nat
           || (Z.of_nat (List.length (scan_lines file)) <=? centerLine + context)%Z)
    then inr ScanFailed
    else match window with
         | [] => inr NoLinesInRange
         | _ :: _ => inl (window, startLine)
         end.
Proof.
  intros Hfs Hlo Hhi Hlen startLine window.
  unfold readSourceContextLines. rewrite Hfs.
  unfold GoInt.sub, GoInt.add. rewrite !wrap_in_range by assumption.
  assert (Hstart : (if (centerLine - context <? 1)%Z then 1%Z
                    else (centerLine - context)%Z) = startLine).
  { subst startLine. destruct (Z.ltb_spec (centerLine - context) 1); lia. }
  rewrite Hstart.
  pose proof (scan_lines_any_status startLine (centerLine + context)
                (scan_lines file) (scan_fails file) 0 []) as Hlines.
  pose proof (scan_status startLine (centerLine + context)
                (scan_lines file) (scan_fails file) 0 []) as Hstatus.
  rewrite scan_window in Hlines by lia.
  destruct (scan (scan_lines file) (scan_fails file) 0 startLine
              (centerLine + context) []) as [lines failed].
  cbn [fst snd app] in Hlines, Hstatus.
  rewrite Hstatus by lia. cbn [Z.add].
  replace (Z.max startLine (0 + 1)) with startLine in Hlines
    by (subst startLine; lia).
  replace (startLine - (0 + 1))%Z with (startLine - 1)%Z in Hlines by lia.
  fold (lines_between (scan_lines file) startLine (centerLine + context)) in Hlines.
  fold window in Hlines. subst lines.
  destruct (scan_fails file && _); [reflexivity|].
  now destruct window.
Qed.

(** X1. A scanner error fails the read exactly when the scan runs into
    it: on a file whose scanner fails after its last line, the read fails
    with the scanner's error if the window reaches the end of the lines (or
    there is no line at all), even when lines of the window were collected;
    if a line beyond the window exists, the scan stops there and the result
    is that of the same lines without the error. *)
Theorem read_scan_error fs path file centerLine context :
  fs path = Some file ->
  GoInt.in_range (centerLine - context) ->
  GoInt.in_range (centerLine + context) ->
  (Z.of_nat (List.length (scan_lines file)) <= GoInt.max_int)%Z ->
  (scan_fails file = true ->
   (List.length (scan_lines file) = 0%nat \/
    Z.of_nat (List.length (scan_lines file)) <= centerLine + context)%Z ->
   readSourceContextLines fs path centerLine context = inr ScanFailed)
  /\ ((centerLine + context < Z.of_nat (List.length (scan_lines file)))%Z ->
      (0 < List.length (scan_lines file))%nat ->
      readSourceContextLines fs path centerLine context =
      readSourceContextLines
        (fun _ => Some (mkSourceFile (scan_lines file) false))
        path centerLine context).
Proof.
  intros Hfs Hlo Hhi Hlen.
  rewrite (readSourceContextLines_opened fs path file) by assumption.
  split.
  - intros Hfails Hreach. rewrite Hfails. cbn [andb].
    destruct Hreach as [-> | Hreach]; [reflexivity|].
    destruct (Z.leb_spec (Z.of_nat (List.length (scan_lines file)))
                (centerLine + context)); [|lia].
    now rewrite orb_true_r.
  - intros Hbeyond Hsome.
    rewrite (readSourceContextLines_opened _ path
               (mkSourceFile (scan_lines file) false)) by (try reflexivity; assumption).
    cbn [scan_lines scan_fails andb].
    destruct (Nat.eqb_spec (List.length (scan_lines file)) 0); [lia|].
    destruct (Z.leb_spec (Z.of_nat (List.length (scan_lines file)))
                (centerLine + context)); [lia|].
    now rewrite andb_false_r.
Qed.

Lemma read_scan_error_witness :
  readSourceContextLines MoreExamples.failing_app_fs "/src/app/main.go" 12 1
    = inr ScanFailed
  /\ readSourceContextLines MoreExamples.failing_app_fs "/src/app/main.go" 10 1
     = inl (["	}"; "	return tracerr.New(reason)"; "}"], 9%Z).
Proof.
  split.
  - refine (proj1 (read_scan_error MoreExamples.failing_app_fs
                     "/src/app/main.go" (mkSourceFile Examples.app_source true)
                     12 1 _ _ _ _) _ _);
      try reflexivity;
      unfold GoInt.in_range, GoInt.min_int, GoInt.max_int; simpl; lia.
  - rewrite (proj2 (read_scan_error MoreExamples.failing_app_fs
                      "/src/app/main.go" (mkSourceFile Examples.app_source true)
                      10 1 eq_refl ltac:(unfold GoInt.in_range, GoInt.min_int, GoInt.max_int; simpl; lia)
                      ltac:(unfold GoInt.in_range, GoInt.min_int, GoInt.max_int; simpl; lia)
                      ltac:(unfold GoInt.max_int; simpl; lia)));
      [reflexivity | simpl; lia | simpl; lia].
Defined.

(** What a successful read returns. *)
Lemma readSourceContextLines_inl fs path file centerLine context lines startLine :
  fs path = Some file ->
  readSourceContextLines fs path centerLine context = inl (lines, startLine) ->
  GoInt.in_range (centerLine - context) ->
  GoInt.in_range (centerLine + context) ->
  (Z.of_nat (List.length (scan_lines file)) <= GoInt.max_int)%Z ->
  startLine = Z.max 1 (centerLine - context)
  /\ lines = lines_between (scan_lines file) startLine (centerLine + context)
  /\ (1 <= List.length lines)%nat
  /\ (Z.of_nat (List.length lines) <= 2 * context + 1)%Z
  /\ (startLine + Z.of_nat (List.length lines) - 1 <= centerLine + context)%Z
  /\ (startLine + Z.of_nat (List.length lines) - 1
      <= Z.of_nat (List.length (scan_lines file)))%Z.
Proof.
  intros Hfs Hread Hlo Hhi Hlen.
  rewrite (readSourceContextLines_opened fs path file) in Hread by assumption.
  cbv zeta in Hread.
  destruct (scan_fails file && _); [discriminate Hread|].
  destruct (lines_between (scan_lines file) (Z.max 1 (centerLine - context))
              (centerLine + context)) as [|line window] eqn:Hwindow;
    [discriminate Hread|].
  injection Hread as <- <-.
  split; [reflexivity|]. split; [now rewrite Hwindow|].
  assert (Hlength : List.length (line :: window)
            = Nat.min (Z.to_nat (centerLine + context
                                 - Z.max 1 (centerLine - context) + 1))
                (List.length (scan_lines file)
                 - Z.to_nat (Z.max 1 (centerLine - context) - 1))).
  { rewrite <- Hwindow. unfold lines_between.
    now rewrite length_firstn, length_skipn. }
  cbn [List.length] in *. lia.
Qed.

(** X2. What a successful read returns, for any file: the start line is
    [max(1, centerLine - context)], at least 1; the lines are the lines of
    the file of numbers [startLine] to [centerLine + context]; there is at
    least one line and at most [2 * context + 1]; the last line returned is
    a line of the file and is not beyond [centerLine + context]. *)
Theorem read_success_bounds fs path file centerLine context lines startLine :
  fs path = Some file ->
  readSourceContextLines fs path centerLine context = inl (lines, startLine) ->
  GoInt.in_range (centerLine - context) ->
  GoInt.in_range (centerLine + context) ->
  (Z.of_nat (List.length (scan_lines file)) <= GoInt.max_int)%Z ->
  startLine = Z.max 1 (centerLine - context)
  /\ (1 <= startLine)%Z
  /\ lines = lines_between (scan_lines file) startLine (centerLine + context)
  /\ (1 <= List.length lines)%nat
  /\ (Z.of_nat (List.length lines) <= 2 * context + 1)%Z
  /\ (startLine + Z.of_nat (List.length lines) - 1 <= centerLine + context)%Z
  /\ (startLine + Z.of_nat (List.length lines) - 1
      <= Z.of_nat (List.length (scan_lines file)))%Z.
Proof.
  intros Hfs Hread Hlo Hhi Hlen.
  destruct (readSourceContextLines_inl _ _ _ _ _ _ _ Hfs Hread Hlo Hhi Hlen)
    as (Hstart & Hlines & Hone & Hmost & Hend & Hfile).
  repeat split; try assumption. lia.
Qed.

Lemma read_success_bounds_witness :
  9%Z = Z.max 1 (10 - 1)
  /\ (1 <= 9)%Z
  /\ ["	}"; "	return tracerr.New(reason)"; "}"]
     = lines_between Examples.app_source 9 (10 + 1)
  /\ (1 <= 3)%nat
  /\ (Z.of_nat 3 <= 2 * 1 + 1)%Z
  /\ (9 + Z.of_nat 3 - 1 <= 10 + 1)%Z
  /\ (9 + Z.of_nat 3 - 1 <= Z.of_nat 12)%Z.
Proof.
  apply (read_success_bounds Examples.app_fs "/src/app/main.go"
           (mkSourceFile Examples.app_source false) 10 1
           ["	}"; "	return tracerr.New(reason)"; "}"] 9);
    try reflexivity;
    unfold GoInt.in_range, GoInt.min_int, GoInt.max_int; simpl; lia.
Defined.

(** ** Chains, summaries and reports *)

Section ChainFacts.

Import Chain.
Local Open Scope list_scope.

Variable h : Heap.

Lemma chain_head e l : cause_chain h e l -> exists l', l = e :: l'.
Proof. destruct 1; eauto. Qed.

Lemma summary_parts_nonempty e l :
  cause_chain h e l -> summary_parts h l <> [].
Proof.
  destruct 1 as [e Hnext|e e' l Hnext _];
    (destruct e as [[p|]|msg inner]; cbn in *; try discriminate;
     try (destruct (nth_error h p); discriminate)).
Qed.

Lemma concat_cons_nonempty sep x xs :
  xs <> [] -> String.concat sep (x :: xs) = (x ++ sep ++ String.concat sep xs)%string.
Proof. destruct xs; [contradiction | reflexivity]. Qed.

(** The summary of an error is made of the parts of its chain. *)
Lemma error_Error_chain e l :
  cause_chain h e l ->
  forall fuel, List.length l <= fuel ->
  error_Error fuel h e = Some (String.concat ": " (summary_parts h l)).
Proof.
  induction 1 as [e Hend|e e' l Hstep Hchain IH]; intros fuel Hfuel;
    (destruct fuel as [|fuel]; [cbn in Hfuel; lia|]).
  - destruct e as [[p|]|msg inner]; cbn in Hend |- *;
      [|discriminate|reflexivity].
    destruct (nth_error h p) as [node|]; [|discriminate].
    cbn in Hend. injection Hend as ->. reflexivity.
  - destruct e as [[p|]|msg inner]; cbn in Hstep;
      [|discriminate|reflexivity].
    cbn [error_Error summary_parts].
    destruct (nth_error h p) as [node|]; [|discriminate].
    cbn in Hstep. injection Hstep as ->.
    rewrite IH by (cbn in Hfuel; lia).
    now rewrite concat_cons_nonempty
      by (eapply summary_parts_nonempty; eassumption).
Qed.

(** What is in the heap is not changed by an allocation. *)
Lemma errors_Unwrap_snoc node e :
  live (List.length h) e ->
  errors_Unwrap (h ++ [node]) e = errors_Unwrap h e.
Proof.
  destruct e as [[p|]|msg inner]; cbn; try reflexivity; try contradiction.
  intros Hp. now rewrite nth_error_snoc_old.
Qed.

Lemma printNode_snoc fs hl node e :
  live (List.length h) e ->
  printNode fs hl (h ++ [node]) e = printNode fs hl h e.
Proof.
  destruct e as [[p|]|msg inner]; cbn; try reflexivity; try contradiction.
  intros Hp. now rewrite nth_error_snoc_old.
Qed.

(** The error that the walk goes on with is an error of the heap. *)
Lemma live_next e e' :
  heap_ok h -> live (List.length h) e ->
  errors_Unwrap h e = Some (Some e') -> live (List.length h) e'.
Proof.
  intros Hh. destruct e as [[p|]|msg [inner|]]; cbn; try discriminate;
    try contradiction.
  - intros Hp Hnext. destruct (nth_error h p) as [node|] eqn:Hnode;
      [|discriminate]. cbn in Hnext. injection Hnext as Hc.
    eapply live_mono; [|eapply Hh; eassumption]. lia.
  - now intros He [= <-].
Qed.

Lemma cause_chain_snoc node e l :
  heap_ok h -> live (List.length h) e ->
  cause_chain h e l -> cause_chain (h ++ [node]) e l.
Proof.
  intros Hh He Hchain. induction Hchain as [e Hend|e e' l Hstep Hchain IH].
  - apply chain_end. now rewrite errors_Unwrap_snoc.
  - apply chain_step with (e' := e').
    + now rewrite errors_Unwrap_snoc.
    + apply IH. eapply live_next; eassumption.
Qed.

Lemma Fprint_loop_separator fuel fs hl e :
  Fprint_loop fuel fs hl h (Some e) false =
  option_map (cons separator) (Fprint_loop fuel fs hl h (Some e) true).
Proof.
  destruct fuel as [|fuel]; [reflexivity|]. cbn [Fprint_loop].
  destruct (printNode fs hl h e); [|reflexivity].
  destruct (errors_Unwrap h e); [|reflexivity].
  now destruct (Fprint_loop fuel fs hl h o false).
Qed.

Lemma Fprint_loop_snoc fs hl node : heap_ok h ->
  forall fuel e isFirst, live (List.length h) e ->
  Fprint_loop fuel fs hl (h ++ [node]) (Some e) isFirst =
  Fprint_loop fuel fs hl h (Some e) isFirst.
Proof.
  intros Hh fuel. induction fuel as [|fuel IH]; intros e isFirst He;
    [reflexivity|].
  cbn [Fprint_loop]. rewrite printNode_snoc, errors_Unwrap_snoc by exact He.
  destruct (printNode fs hl h e) as [out|]; [|reflexivity].
  destruct (errors_Unwrap h e) as [[e'|]|] eqn:Hnext; [| |reflexivity].
  - rewrite IH by (eapply live_next; eassumption). reflexivity.
  - now rewrite !Fprint_loop_nil.
Qed.

(** The addresses of a chain go down. *)
Lemma chain_addresses_descending : heap_ok h ->
  forall e l, cause_chain h e l ->
  forall n, live n e -> descending n (chain_addresses l).
Proof.
  intros Hh e l Hchain.
  induction Hchain as [e Hend|e e' l Hstep Hchain IH]; intros n He.
  - destruct e as [[p|]|msg inner]; cbn in *; auto.
  - destruct e as [[p|]|msg [inner|]]; cbn in Hstep, He |- *;
      try discriminate; try contradiction.
    + destruct (nth_error h p) as [node|] eqn:Hnode; [|discriminate].
      cbn in Hstep. injection Hstep as Hc.
      split; [exact He|]. apply IH. eapply Hh; eassumption.
    + injection Hstep as <-. now apply IH.
Qed.

Lemma descending_bound n ps : descending n ps -> List.length ps <= n.
Proof.
  revert n. induction ps as [|p ps IH]; intros n; cbn; [lia|].
  intros [Hp Hps]. specialize (IH p Hps). lia.
Qed.

Lemma descending_below n ps : descending n ps -> Forall (fun p => p < n) ps.
Proof.
  revert n. induction ps as [|p ps IH]; intros n; cbn; [constructor|].
  intros [Hp Hps]. constructor; [exact Hp|].
  eapply Forall_impl; [|apply IH; exact Hps]. cbn. intros q Hq. lia.
Qed.

Lemma descending_NoDup n ps : descending n ps -> NoDup ps.
Proof.
  revert n. induction ps as [|p ps IH]; intros n; cbn; [constructor|].
  intros [Hp Hps]. constructor; [|eapply IH; exact Hps].
  intros Hin. apply descending_below in Hps.
  rewrite Forall_forall in Hps. specialize (Hps p Hin). lia.
Qed.

End ChainFacts.

(** X3. The one-line summary of an error is made of the messages of its
    cause chain, from the newest node on, joined by a colon and a space;
    it ends with the summary of the first error of another package, if the
    chain has one, and the nodes behind that error are left out. *)
Theorem Error_joins_chain h e l :
  Chain.cause_chain h (Chain.TracerrError e) l ->
  forall fuel, List.length l <= fuel ->
  Chain.Error_Error fuel h e = Some (String.concat ": " (summary_parts h l)).
Proof.
  intros Hchain fuel Hfuel. unfold Chain.Error_Error.
  now apply error_Error_chain.
Qed.

Lemma Error_joins_chain_witness :
  Chain.Error_Error 3 Examples.chain_heap (Some 2)
  = Some "request failed: context: root cause".
Proof.
  apply (Error_joins_chain Examples.chain_heap (Some 2)
           MoreExamples.chain_of_three).
  - apply Chain.chain_step with (e' := Chain.TracerrError (Some 1));
      [reflexivity|].
    apply Chain.chain_step with (e' := Chain.TracerrError (Some 0));
      [reflexivity|].
    apply Chain.chain_end. reflexivity.
  - simpl. lia.
Defined.

(** X4. Wrapping puts one node in front of the cause chain: the chain of
    the new error is the new node followed by the chain of the cause, which
    is what it was before the wrap. *)
Theorem Wrap_extends_chain stk h E1 msg l :
  Chain.heap_ok h ->
  Chain.live (List.length h) E1 ->
  Chain.cause_chain h E1 l ->
  Chain.cause_chain (fst (Chain.Wrap stk (Some E1) msg h)) E1 l
  /\ Chain.cause_chain (fst (Chain.Wrap stk (Some E1) msg h))
       (Chain.TracerrError (snd (Chain.Wrap stk (Some E1) msg h)))
       (Chain.TracerrError (Some (List.length h)) :: l).
Proof.
  intros Hh HE1 Hchain. rewrite Wrap_eq. cbn [fst snd].
  assert (Hold : Chain.cause_chain
            (h ++ [Chain.mkError msg (Chain.captureFrames (callers_from stk 2))
                     (Some E1)])%list E1 l)
    by now apply cause_chain_snoc.
  split; [exact Hold|].
  apply Chain.chain_step with (e' := E1); [|exact Hold].
  cbn. now rewrite nth_error_snoc_new.
Qed.

Lemma Wrap_extends_chain_witness :
  Chain.cause_chain
    (fst (Chain.Wrap Examples.wrap_stack (Some Examples.root_error) "context"
            Examples.root_heap))
    (Chain.TracerrError
       (snd (Chain.Wrap Examples.wrap_stack (Some Examples.root_error) "context"
               Examples.root_heap)))
    [Chain.TracerrError (Some 1); Examples.root_error].
Proof.
  refine (proj2 (Wrap_extends_chain Examples.wrap_stack Examples.root_heap
                   Examples.root_error "context" [Examples.root_error] _ _ _)).
  - unfold Examples.root_heap. auto with tracerr.
  - simpl. lia.
  - apply Chain.chain_end. reflexivity.
Defined.

(** X5. The report of a wrapped error is the message and the frames of
    the new node, the separator, and the report of the cause as it was
    before the wrap. *)
Theorem Fprint_of_Wrap fs hl stk h E1 msg fuel :
  Chain.heap_ok h ->
  Chain.live (List.length h) E1 ->
  Chain.Error_Fprint (S fuel) fs hl (fst (Chain.Wrap stk (Some E1) msg h))
    (snd (Chain.Wrap stk (Some E1) msg h))
  = option_map
      (fun report =>
         ((Message, (red msg ++ newline)%string)
            :: flat_map (Chain.printFrame fs hl)
                 (Chain.captureFrames (callers_from stk 2)))
         ++ Chain.separator :: report)%list
      (Chain.Fprint_loop fuel fs hl h (Some E1) true).
Proof.
  intros Hh HE1. rewrite Wrap_eq. cbn [fst snd].
  unfold Chain.Error_Fprint. cbn [Chain.Fprint_loop Chain.printNode
    Chain.errors_Unwrap Chain.Error_Unwrap].
  rewrite nth_error_snoc_new. cbn [option_map Chain.cause Chain.Msg Chain.Frames].
  rewrite Fprint_loop_separator, Fprint_loop_snoc by assumption.
  now destruct (Chain.Fprint_loop fuel fs hl h (Some E1) true).
Qed.

Lemma Fprint_of_Wrap_witness :
  Chain.Error_Fprint 2 Examples.no_files Examples.failing_engine
    (fst (Chain.Wrap Examples.wrap_stack (Some Examples.root_error) "context"
            Examples.root_heap))
    (snd (Chain.Wrap Examples.wrap_stack (Some Examples.root_error) "context"
            Examples.root_heap))
  = option_map
      (fun report =>
         ((Message, (red "context" ++ newline)%string)
            :: flat_map (Chain.printFrame Examples.no_files Examples.failing_engine)
                 (Chain.captureFrames (callers_from Examples.wrap_stack 2)))
         ++ Chain.separator :: report)%list
      (Chain.Fprint_loop 1 Examples.no_files Examples.failing_engine
         Examples.root_heap (Some Examples.root_error) true).
Proof.
  apply (Fprint_of_Wrap Examples.no_files Examples.failing_engine
           Examples.wrap_stack Examples.root_heap Examples.root_error "context" 1).
  - unfold Examples.root_heap. auto with tracerr.
  - simpl. lia.
Defined.

(** ** What a report is made of *)

Section Counting.

Import Chain.
Local Open Scope list_scope.

Variables (fs : FileSystem) (hl : Highlighter) (h : Heap).

Lemma printLines_other_sites s lines startLine idx width hls : forall i,
  Site_eqb SourceLine s = false ->
  count_site s (printLines hls i lines startLine idx width) = 0.
Proof.
  intros i Hs. revert i.
  induction hls as [|hLine hls IH]; intros i; cbn [printLines]; [reflexivity|].
  destruct (List.length lines <=? i)%nat; [apply IH|].
  rewrite count_site_cons, IH. cbn [fst sourceLine]. now rewrite Hs.
Qed.

Lemma printFrame_counts frame :
  count_site Message (printFrame fs hl frame) = 0
  /\ count_site FrameHeader (printFrame fs hl frame) = 1
  /\ count_site Placeholder (printFrame fs hl frame)
     = (if unreadable fs frame then 1 else 0).
Proof.
  unfold printFrame, unreadable.
  destruct (readSourceContextLines fs (File frame) (Line frame) 1)
    as [[lines start]|err].
  - rewrite !count_site_cons, !printLines_other_sites by reflexivity.
    repeat split.
  - repeat split.
Qed.

Lemma printFrames_counts frames :
  count_site Message (flat_map (printFrame fs hl) frames) = 0
  /\ count_site FrameHeader (flat_map (printFrame fs hl) frames)
     = List.length frames
  /\ count_site Placeholder (flat_map (printFrame fs hl) frames)
     = List.length (filter (unreadable fs) frames).
Proof.
  induction frames as [|frame frames (IHm & IHh & IHp)]; [repeat split|].
  destruct (printFrame_counts frame) as (Hm & Hh & Hp).
  cbn [flat_map filter]. rewrite !count_site_app, Hm, Hh, Hp, IHm, IHh, IHp.
  repeat split. now destruct (unreadable fs frame).
Qed.

Lemma printNode_counts e out :
  printNode fs hl h e = Some out ->
  count_site Message out = 1
  /\ count_site FrameHeader out = List.length (node_frames h e)
  /\ count_site Placeholder out
     = List.length (filter (unreadable fs) (node_frames h e)).
Proof.
  destruct e as [[p|]|msg inner]; cbn [printNode node_frames];
    try discriminate.
  - destruct (nth_error h p) as [node|]; [|discriminate].
    intros [= <-].
    destruct (printFrames_counts (Frames node)) as (Hm & Hh & Hp).
    rewrite !count_site_cons, Hm, Hh, Hp. repeat split.
  - intros [= <-]. repeat split.
Qed.

Lemma joined_counts l nodes :
  Forall2 (fun err out => printNode fs hl h err = Some out) l nodes ->
  count_site Message (flat_map (cons separator) nodes) = List.length l
  /\ count_site FrameHeader (flat_map (cons separator) nodes)
     = List.length (flat_map (node_frames h) l)
  /\ count_site Placeholder (flat_map (cons separator) nodes)
     = List.length (filter (unreadable fs) (flat_map (node_frames h) l)).
Proof.
  induction 1 as [|e out l nodes Hnode _ (IHm & IHh & IHp)]; [repeat split|].
  destruct (printNode_counts e out Hnode) as (Hm & Hh & Hp).
  cbn [flat_map app List.length].
  rewrite !count_site_cons, !count_site_app, Hm, Hh, Hp, IHm, IHh, IHp.
  rewrite filter_app, !length_app. repeat split.
Qed.

End Counting.

Section Writes.

Import Chain.
Local Open Scope list_scope.

Variables (fs : FileSystem) (hl : Highlighter) (h : Heap).

Lemma count_site_filter s out :
  count_site s out = List.length (filter (at_site s) out).
Proof. reflexivity. Qed.

Lemma filter_at_site_cons s w out :
  filter (at_site s) (w :: out)
  = if Site_eqb (fst w) s then w :: filter (at_site s) out
    else filter (at_site s) out.
Proof. reflexivity. Qed.

Lemma printLines_no_site s lines startLine idx width hls : forall i,
  Site_eqb SourceLine s = false ->
  filter (at_site s) (printLines hls i lines startLine idx width) = []
  /\ count_text unread_text (printLines hls i lines startLine idx width) = 0.
Proof.
  intros i Hs. revert i.
  induction hls as [|hLine hls IH]; intros i; cbn [printLines];
    [split; reflexivity|].
  destruct (List.length lines <=? i)%nat; [apply IH|].
  destruct (IH (S i)) as [IHf IHt].
  rewrite filter_at_site_cons. cbn [fst sourceLine]. rewrite Hs, IHf.
  split; [reflexivity|].
  rewrite count_text_cons, IHt. unfold sourceLine, gutter.
  now destruct (Z.of_nat i =? idx)%Z.
Qed.

Lemma printFrame_writes frame :
  filter (at_site Message) (printFrame fs hl frame) = []
  /\ filter (at_site FrameHeader) (printFrame fs hl frame) = [frameHeader frame]
  /\ filter (at_site Placeholder) (printFrame fs hl frame)
     = (if unreadable fs frame then [(Placeholder, unread_text)] else [])
  /\ count_text unread_text (printFrame fs hl frame)
     = (if unreadable fs frame then 1 else 0).
Proof.
  unfold printFrame, unreadable.
  destruct (readSourceContextLines fs (File frame) (Line frame) 1)
    as [[lines start]|err].
  - cbn [filter at_site fst frameHeader Site_eqb].
    match goal with
    | |- context [printLines ?hls 0 ?l ?st ?idx ?w] =>
        destruct (printLines_no_site Message l st idx w hls 0 eq_refl) as [-> _];
        destruct (printLines_no_site FrameHeader l st idx w hls 0 eq_refl)
          as [-> _];
        destruct (printLines_no_site Placeholder l st idx w hls 0 eq_refl)
          as [-> Htext]
    end.
    rewrite count_text_cons, Htext. repeat split.
  - repeat split.
Qed.

Lemma printFrames_writes frames :
  filter (at_site Message) (flat_map (printFrame fs hl) frames) = []
  /\ filter (at_site FrameHeader) (flat_map (printFrame fs hl) frames)
     = map frameHeader frames
  /\ filter (at_site Placeholder) (flat_map (printFrame fs hl) frames)
     = map (fun _ => (Placeholder, unread_text)) (filter (unreadable fs) frames)
  /\ count_text unread_text (flat_map (printFrame fs hl) frames)
     = List.length (filter (unreadable fs) frames).
Proof.
  induction frames as [|frame frames (IHm & IHh & IHp & IHt)]; [repeat split|].
  destruct (printFrame_writes frame) as (Hm & Hh & Hp & Ht).
  cbn [flat_map filter map].
  rewrite !filter_app, count_text_app, Hm, Hh, Hp, Ht, IHm, IHh, IHp, IHt.
  repeat split; now destruct (unreadable fs frame).
Qed.

Lemma printNode_writes e out :
  printNode fs hl h e = Some out ->
  filter (at_site Message) out
  = [(Message, (red (node_message h e) ++ newline)%string)]
  /\ filter (at_site FrameHeader) out = map frameHeader (node_frames h e)
  /\ filter (at_site Placeholder) out
     = map (fun _ => (Placeholder, unread_text))
         (filter (unreadable fs) (node_frames h e))
  /\ count_text unread_text out
     = List.length (filter (unreadable fs) (node_frames h e)).
Proof.
  destruct e as [[p|]|msg inner]; cbn [printNode node_frames node_message];
    try discriminate.
  - destruct (nth_error h p) as [node|]; [|discriminate].
    intros [= <-].
    destruct (printFrames_writes (Frames node)) as (Hm & Hh & Hp & Ht).
    cbn [filter at_site fst Site_eqb].
    rewrite count_text_cons, Hm, Hh, Hp, Ht. repeat split.
  - intros [= <-]. repeat split.
Qed.

Lemma joined_writes l nodes :
  Forall2 (fun err out => printNode fs hl h err = Some out) l nodes ->
  filter (at_site Message) (flat_map (cons separator) nodes)
  = map (fun err => (Message, (red (node_message h err) ++ newline)%string)) l
  /\ filter (at_site FrameHeader) (flat_map (cons separator) nodes)
     = map frameHeader (flat_map (node_frames h) l)
  /\ filter (at_site Placeholder) (flat_map (cons separator) nodes)
     = map (fun _ => (Placeholder, unread_text))
         (filter (unreadable fs) (flat_map (node_frames h) l))
  /\ count_text unread_text (flat_map (cons separator) nodes)
     = List.length (filter (unreadable fs) (flat_map (node_frames h) l)).
Proof.
  induction 1 as [|e out l nodes Hnode _ (IHm & IHh & IHp & IHt)];
    [repeat split|].
  destruct (printNode_writes e out Hnode) as (Hm & Hh & Hp & Ht).
  cbn [flat_map app map].
  rewrite count_text_cons, count_text_app.
  cbn [filter at_site fst separator Site_eqb].
  rewrite !filter_app, Hm, Hh, Hp, Ht, IHm, IHh, IHp, IHt.
  rewrite !map_app, !length_app. repeat split.
Qed.

End Writes.

(** X6. A report holds, in the order of the chain, one message line for
    each error of the chain, its message in red; one header for each frame
    of its nodes (an error of another package has none); and one line
    "Could not read source file", in gray behind four spaces, for each of
    these frames whose context cannot be read, and no other write of that
    text. *)
Theorem report_counts fs hl h e l :
  Chain.cause_chain h (Chain.TracerrError e) l ->
  forall fuel, List.length l <= fuel ->
  let unread_text :=
    ("    " ++ String ESC "[90m" ++ "Could not read source file"
       ++ String ESC "[0m" ++ String LF "")%string in
  exists out,
    Chain.Error_Fprint fuel fs hl h e = Some out
    /\ filter (at_site Message) out
       = map (fun err => (Message, (red (node_message h err) ++ newline)%string)) l
    /\ filter (at_site FrameHeader) out
       = map frameHeader (flat_map (node_frames h) l)
    /\ filter (at_site Placeholder) out
       = map (fun _ => (Placeholder, unread_text))
           (filter (unreadable fs) (flat_map (node_frames h) l))
    /\ count_text unread_text out
       = List.length (filter (unreadable fs) (flat_map (node_frames h) l))
    /\ strip_colors unread_text
       = ("    Could not read source file" ++ String LF "")%string
    /\ count_site Message out = List.length l
    /\ count_site FrameHeader out = List.length (flat_map (node_frames h) l)
    /\ count_site Placeholder out
       = List.length (filter (unreadable fs) (flat_map (node_frames h) l)).
Proof.
  intros Hchain fuel Hfuel text.
  change text with unread_text. clear text.
  destruct (Fprint_loop_chain fs hl h _ _ Hchain fuel true Hfuel)
    as (first & rest & Hall & Hout).
  unfold Chain.Error_Fprint. rewrite Hout. eexists. split; [reflexivity|].
  inversion Hall as [|e0 out0 l' nodes' Hfirst Hrest]; subst.
  destruct (printNode_writes fs hl h _ _ Hfirst) as (Hm & Hh & Hp & Ht).
  destruct (joined_writes fs hl h _ _ Hrest) as (Jm & Jh & Jp & Jt).
  cbn [flat_map map app].
  rewrite !count_site_filter, count_text_app, !filter_app.
  rewrite Hm, Hh, Hp, Ht, Jm, Jh, Jp, Jt.
  repeat split;
    rewrite ?filter_app, ?map_app, ?length_app, ?length_map, ?length_app;
    cbn [app List.length]; try reflexivity; lia.
Qed.

Lemma report_counts_witness :
  exists out,
    Chain.Error_Fprint 3 Examples.no_files Examples.failing_engine
      Examples.chain_heap (Some 2) = Some out
    /\ count_text
         ("    " ++ String ESC "[90m" ++ "Could not read source file"
            ++ String ESC "[0m" ++ String LF "")%string out = 6
    /\ count_site Message out = 3
    /\ count_site FrameHeader out = 6
    /\ count_site Placeholder out = 6.
Proof.
  destruct (report_counts Examples.no_files Examples.failing_engine
              Examples.chain_heap (Some 2) MoreExamples.chain_of_three)
    with (fuel := 3)
    as (out & Hout & _ & _ & _ & Htext & _ & Hm & Hh & Hp).
  - apply Chain.chain_step with (e' := Chain.TracerrError (Some 1));
      [reflexivity|].
    apply Chain.chain_step with (e' := Chain.TracerrError (Some 0));
      [reflexivity|].
    apply Chain.chain_end. reflexivity.
  - simpl. lia.
  - exists out. repeat split; assumption.
Defined.

(** ** The heap that the constructors build *)

(** X7. The constructors keep the heap in order: if the cause of every
    node was allocated before the node, the same holds after [New],
    [Errorf], [Wrap] and [Wrapf] of an error of the heap; the error
    returned is an error of the new heap, and so is every error of the old
    one. *)
Theorem constructors_keep_heap_ok {Arg : Type}
    (fmt_Sprintf : string -> list Arg -> string) stk msg format args h E1 :
  Chain.heap_ok h ->
  Chain.live (List.length h) E1 ->
  Chain.heap_ok (fst (Chain.New stk msg h))
  /\ Chain.heap_ok (fst (Chain.Errorf fmt_Sprintf stk format args h))
  /\ Chain.heap_ok (fst (Chain.Wrap stk (Some E1) msg h))
  /\ Chain.heap_ok (fst (Chain.Wrapf fmt_Sprintf stk (Some E1) format args h))
  /\ Chain.live (List.length (fst (Chain.New stk msg h)))
       (Chain.TracerrError (Some (snd (Chain.New stk msg h))))
  /\ Chain.live (List.length (fst (Chain.Wrap stk (Some E1) msg h)))
       (Chain.TracerrError (snd (Chain.Wrap stk (Some E1) msg h)))
  /\ Chain.live (List.length (fst (Chain.New stk msg h))) E1
  /\ Chain.live (List.length (fst (Chain.Wrap stk (Some E1) msg h))) E1.
Proof.
  intros Hh HE1.
  repeat split; auto with tracerr;
    (eapply live_mono; [|exact HE1]);
    rewrite ?Wrap_eq; unfold Chain.New; rewrite ?newError_eq;
    cbn [fst]; rewrite length_app; lia.
Qed.

Lemma constructors_keep_heap_ok_witness :
  Chain.heap_ok
    (fst (Chain.Wrap Examples.wrap_stack (Some Examples.root_error) "context"
            Examples.root_heap)).
Proof.
  refine (proj1 (proj2 (proj2
    (constructors_keep_heap_ok (fun (format : string) (_ : list nat) => format)
       Examples.wrap_stack "context" "%d" [] Examples.root_heap
       Examples.root_error _ _)))).
  - unfold Examples.root_heap. auto with tracerr.
  - simpl. lia.
Defined.

(** X8. No cycle: along a cause chain the addresses of the nodes go
    strictly down, so no node is met twice and a chain visits at most as
    many nodes as the heap holds. *)
Theorem chain_has_no_cycle h e l :
  Chain.heap_ok h ->
  Chain.live (List.length h) e ->
  Chain.cause_chain h e l ->
  descending (List.length h) (chain_addresses l)
  /\ NoDup (chain_addresses l)
  /\ List.length (chain_addresses l) <= List.length h.
Proof.
  intros Hh He Hchain.
  pose proof (chain_addresses_descending h Hh e l Hchain _ He) as Hdesc.
  split; [exact Hdesc|]. split.
  - eapply descending_NoDup; exact Hdesc.
  - apply descending_bound; exact Hdesc.
Qed.

Lemma chain_has_no_cycle_witness :
  descending 3 [2; 1; 0] /\ NoDup [2; 1; 0] /\ 3 <= 3.
Proof.
  apply (chain_has_no_cycle Examples.chain_heap (Chain.TracerrError (Some 2))
           MoreExamples.chain_of_three).
  - unfold Examples.chain_heap, Examples.root_heap.
    repeat (apply heap_ok_Wrap; [|simpl; lia]). auto with tracerr.
  - simpl. lia.
  - apply Chain.chain_step with (e' := Chain.TracerrError (Some 1));
      [reflexivity|].
    apply Chain.chain_step with (e' := Chain.TracerrError (Some 0));
      [reflexivity|].
    apply Chain.chain_end. reflexivity.
Defined.

(** ** The nil pointer and the formatted constructors *)

(** X9. The methods [Error], [Unwrap] and [Fprint] of a nil [*Error]
    give no result, whatever the fuel: they panic. So the nil pointer that
    [Wrap] returns for a nil cause cannot be printed, and an error that
    wraps a nil [*Error] stored in an interface value has neither a summary
    nor a report. *)
Theorem nil_receiver_panics fs hl stk msg h fuel :
  Chain.Error_Error fuel h None = None
  /\ Chain.Error_Unwrap h None = None
  /\ Chain.Error_Fprint fuel fs hl h None = None
  /\ Chain.Error_Fprint fuel fs hl (fst (Chain.Wrap stk None msg h))
       (snd (Chain.Wrap stk None msg h)) = None
  /\ Chain.Error_Error fuel
       (fst (Chain.Wrap stk (Some (Chain.TracerrError None)) msg h))
       (snd (Chain.Wrap stk (Some (Chain.TracerrError None)) msg h)) = None
  /\ Chain.Error_Fprint fuel fs hl
       (fst (Chain.Wrap stk (Some (Chain.TracerrError None)) msg h))
       (snd (Chain.Wrap stk (Some (Chain.TracerrError None)) msg h)) = None.
Proof.
  assert (Hnil : forall h', Chain.Error_Fprint fuel fs hl h' None = None)
    by (intros h'; now destruct fuel).
  split; [now destruct fuel|]. split; [reflexivity|].
  split; [apply Hnil|]. split; [apply Hnil|].
  rewrite Wrap_eq. cbn [fst snd]. split.
  - destruct fuel as [|fuel]; [reflexivity|].
    unfold Chain.Error_Error. cbn [Chain.error_Error].
    rewrite nth_error_snoc_new. cbn [Chain.cause]. now destruct fuel.
  - destruct fuel as [|fuel]; [reflexivity|].
    unfold Chain.Error_Fprint.
    cbn [Chain.Fprint_loop Chain.printNode Chain.errors_Unwrap Chain.Error_Unwrap].
    rewrite nth_error_snoc_new. cbn [option_map Chain.cause].
    now destruct fuel.
Qed.

(** X10. [Errorf] is [New], and [Wrapf] is [Wrap], of the formatted
    message, in both editions; the message of [Errorf(format, args)] is
    [fmt.Sprintf(format, args)]. *)
Theorem formatted_constructors {Arg : Type}
    (fmt_Sprintf : string -> list Arg -> string) stk err format args h :
  Chain.Errorf fmt_Sprintf stk format args h
    = Chain.New stk (fmt_Sprintf format args) h
  /\ Chain.Wrapf fmt_Sprintf stk err format args h
     = Chain.Wrap stk err (fmt_Sprintf format args) h
  /\ Single.Errorf fmt_Sprintf stk format args
     = Single.New stk (fmt_Sprintf format args)
  /\ (forall fuel,
        Chain.Error_Error (S fuel)
          (fst (Chain.Errorf fmt_Sprintf stk format args h))
          (Some (snd (Chain.Errorf fmt_Sprintf stk format args h)))
        = Some (fmt_Sprintf format args))
  /\ Single.Error_Error (Single.Errorf fmt_Sprintf stk format args)
     = fmt_Sprintf format args.
Proof.
  split; [reflexivity|]. split; [now destruct err|]. split; [reflexivity|].
  split; [|reflexivity].
  intros fuel. unfold Chain.Errorf. rewrite newError_eq. cbn [fst snd].
  unfold Chain.Error_Error. cbn [Chain.error_Error].
  now rewrite nth_error_snoc_new.
Qed.

(** ** The two editions *)

Section Editions.

Variables (lines : list string) (startLine errorLineIndex : Z) (width : nat).

(** Without its caret rows, what the loop of the single-node edition
    prints is what the loop of the chain-aware edition prints; there is a
    caret row for the line of the frame only. *)
Lemma Single_printLines_Chain hls : forall i,
  exists out,
    Single.printLines hls i lines startLine errorLineIndex width = Some out
    /\ filter not_caret out
       = Chain.printLines hls i lines startLine errorLineIndex width
    /\ count_site CaretRow out
       <= (if (Z.of_nat i <=? errorLineIndex)%Z then 1 else 0).
Proof.
  induction hls as [|hLine hls IH]; intros i;
    cbn [Single.printLines Chain.printLines].
  - exists []. repeat split. cbn. destruct (Z.of_nat i <=? errorLineIndex)%Z; lia.
  - destruct (IH (S i)) as (out & Hout & Hfilter & Hcount). rewrite Hout.
    assert (Hmono : count_site CaretRow out
              <= (if (Z.of_nat i <=? errorLineIndex)%Z then 1 else 0)).
    { destruct (Z.leb_spec (Z.of_nat (S i)) errorLineIndex),
        (Z.leb_spec (Z.of_nat i) errorLineIndex); lia. }
    destruct (Nat.leb_spec (List.length lines) i) as [Hi|Hi].
    + exists out. repeat split; assumption.
    + destruct (nth_error lines i) as [line|] eqn:Hline;
        [|apply nth_error_None in Hline; lia].
      destruct (Z.eqb_spec (Z.of_nat i) errorLineIndex) as [Heq|Hne];
        cbn [option_map app]; eexists; (split; [reflexivity|]).
      * split; [cbn [filter not_caret fst sourceLine Single.caretRow Site_eqb negb];
                now rewrite Hfilter|].
        rewrite !count_site_cons. cbn [fst sourceLine Single.caretRow Site_eqb].
        destruct (Z.leb_spec (Z.of_nat (S i)) errorLineIndex),
          (Z.leb_spec (Z.of_nat i) errorLineIndex); lia.
      * split; [cbn [filter not_caret fst sourceLine Site_eqb negb];
                now rewrite Hfilter|].
        rewrite count_site_cons. cbn [fst sourceLine Site_eqb]. exact Hmono.
Qed.

End Editions.

(** X11. The block of a frame in the single-node edition is the block of
    the chain-aware edition with, at most, one caret row added: without the
    caret rows the two are the same writes, for every file system and
    engine. *)
Theorem Single_frame_is_Chain_frame_with_caret fs hl frame :
  exists out,
    Single.printFrame fs hl frame = Some out
    /\ filter not_caret out = Chain.printFrame fs hl frame
    /\ count_site CaretRow out <= 1
    /\ count_site CaretRow (Chain.printFrame fs hl frame) = 0.
Proof.
  unfold Single.printFrame, Chain.printFrame.
  destruct (readSourceContextLines fs (File frame) (Line frame) 1)
    as [[lines start]|err].
  - match goal with
    | |- context [Single.printLines ?hls 0 ?l ?s ?e ?w] =>
        destruct (Single_printLines_Chain l s e w hls 0)
          as (out & -> & Hfilter & Hcount)
    end.
    cbn [option_map]. eexists. split; [reflexivity|].
    split; [cbn [filter not_caret fst frameHeader Site_eqb negb];
            now rewrite Hfilter|].
    split.
    + rewrite count_site_cons. cbn [fst frameHeader Site_eqb].
      destruct (Z.of_nat 0 <=? GoInt.sub (Line frame) start)%Z; lia.
    + rewrite count_site_cons. cbn [fst frameHeader Site_eqb].
      now rewrite printLines_other_sites.
  - eexists. repeat split. cbn. lia.
Qed.

(** ** Frame capture in the two editions *)

Lemma Chain_captureFrames_prefix levels :
  Chain.captureFrames levels
  = firstn (List.length (Chain.captureFrames levels))
      (Single.captureFrames levels).
Proof.
  induction levels as [|c levels IH];
    cbn [Chain.captureFrames Single.captureFrames]; [reflexivity|].
  destruct (strings_HasPrefix (funcName c) "runtime."); [reflexivity|].
  cbn [List.length firstn]. now rewrite <- IH.
Qed.

Lemma Chain_captureFrames_user levels :
  Forall user_level levels ->
  Chain.captureFrames levels = Single.captureFrames levels.
Proof.
  induction 1 as [|c levels Hc _ IH];
    cbn [Chain.captureFrames Single.captureFrames]; [reflexivity|].
  unfold user_level in Hc. now rewrite Hc, IH.
Qed.

Lemma Single_captureFrames_length levels :
  List.length (Single.captureFrames levels) = List.length levels.
Proof.
  induction levels as [|c levels IH]; cbn; [reflexivity | now rewrite IH].
Qed.

(** X12. The frames of the chain-aware edition are the first frames of
    the single-node edition, all of them when no level of the stack is one
    of the runtime. The single-node edition records one frame for each
    level from the caller on: an error made on a stack of at most two
    levels has no frame, in both editions. *)
Theorem frames_of_the_editions stk msg h :
  let chain := Chain.captureFrames (callers_from stk 2) in
  let single := Single.Frames (Single.New stk msg) in
  option_map Chain.Frames
    (nth_error (fst (Chain.New stk msg h)) (snd (Chain.New stk msg h)))
  = Some chain
  /\ chain = firstn (List.length chain) single
  /\ (Forall user_level (callers_from stk 2) -> chain = single)
  /\ List.length single = List.length stk - 2
  /\ List.length chain <= List.length stk - 2
  /\ (List.length stk <= 2 -> chain = [] /\ single = []).
Proof.
  intros chain single.
  assert (Hsingle : List.length single = List.length stk - 2).
  { subst single. cbn [Single.New Single.newError Single.Frames].
    rewrite Single_captureFrames_length. unfold callers_from.
    apply length_skipn. }
  assert (Hprefix : chain = firstn (List.length chain) single)
    by apply Chain_captureFrames_prefix.
  assert (Hchain : List.length chain <= List.length stk - 2).
  { rewrite <- Hsingle. rewrite Hprefix at 1. rewrite length_firstn. lia. }
  split; [|split; [|split; [|split; [|split]]]];
    try assumption.
  - unfold Chain.New. rewrite newError_eq. cbn [fst snd].
    now rewrite nth_error_snoc_new.
  - apply Chain_captureFrames_user.
  - intros Hshort. split.
    + destruct chain; [reflexivity | cbn in Hchain; lia].
    + destruct single; [reflexivity | cbn in Hsingle; lia].
Qed.

(** ** Colors and visible text *)

Section VisibleText.

Lemma strip_from_reset_end s : forall st,
  strip_from st (s ++ colorReset) = strip_from st s.
Proof.
  induction s as [|c s IH]; intros st.
  - destruct st; cbn; now rewrite ?string_app_nil_r.
  - cbn [append strip_from]. now rewrite IH.
Qed.

Lemma no_ESC_app a b : no_ESC (a ++ b) = no_ESC a && no_ESC b.
Proof.
  induction a as [|x a IH]; cbn; [reflexivity|].
  now rewrite IH, andb_assoc.
Qed.

(** A text without ESC is copied as it is. *)
Lemma strip_colors_plain a t :
  no_ESC a = true -> strip_colors (a ++ t) = a ++ strip_colors t.
Proof.
  unfold strip_colors. induction a as [|c a IH]; cbn [no_ESC append].
  - reflexivity.
  - intros [Hc Ha]%andb_prop. apply negb_true_iff in Hc.
    cbn [strip_from step pending_text]. rewrite Hc. cbn [fst snd append].
    now rewrite IH.
Qed.

Lemma strip_colors_plain_all a : no_ESC a = true -> strip_colors a = a.
Proof.
  intros Ha. rewrite <- (string_app_nil_r a) at 1.
  rewrite strip_colors_plain by exact Ha. apply string_app_nil_r.
Qed.

(** A colored text is its text. *)
Lemma strip_colors_colored code s t :
  (forall x, strip_colors (code ++ x) = strip_colors x) ->
  strip_colors ((code ++ s ++ colorReset) ++ t) = strip_colors s ++ strip_colors t.
Proof.
  intros Hcode. rewrite string_app_assoc, Hcode.
  rewrite strip_colors_reset.
  unfold strip_colors at 1. now rewrite strip_from_reset_end.
Qed.

Lemma string_of_uint_no_ESC d : no_ESC (NilEmpty.string_of_uint d) = true.
Proof. induction d; cbn; auto. Qed.

Lemma fmt_d_no_ESC n : no_ESC (fmt_d n) = true.
Proof.
  unfold fmt_d. destruct (Z.to_int n) as [d|d]; cbn.
  - destruct d; try reflexivity; apply (string_of_uint_no_ESC (_ d)).
  - destruct d; try reflexivity; apply (string_of_uint_no_ESC (_ d)).
Qed.

Lemma strings_Repeat_space_no_ESC n : no_ESC (strings_Repeat " " n) = true.
Proof. induction n as [|n IH]; [reflexivity | exact IH]. Qed.

Lemma fmt_pad_d_no_ESC width n : no_ESC (fmt_pad_d width n) = true.
Proof.
  unfold fmt_pad_d.
  now rewrite no_ESC_app, strings_Repeat_space_no_ESC, fmt_d_no_ESC.
Qed.

End VisibleText.

(** X13. The helpers [italic], [gray], [boldGray], [red] and [yellow]
    only add color codes: without the color codes, what they return is
    their argument without its own. *)
Theorem helpers_only_add_codes s :
  strip_colors (italic s) = strip_colors s
  /\ strip_colors (gray s) = strip_colors s
  /\ strip_colors (boldGray s) = strip_colors s
  /\ strip_colors (red s) = strip_colors s
  /\ strip_colors (yellow s) = strip_colors s.
Proof.
  unfold italic, gray, boldGray, red, yellow.
  repeat split;
    (rewrite <- (string_app_nil_r (_ ++ s ++ colorReset));
     rewrite strip_colors_colored by reflexivity;
     apply string_app_nil_r).
Qed.

(** X14. The header of a frame reads "at", the function, and between
    parentheses the base name of the file, a colon and the line in decimal,
    as long as the names hold no escape byte. *)
Theorem frameHeader_text frame :
  no_ESC (Function frame) = true ->
  no_ESC (filepath_Base (File frame)) = true ->
  strip_colors (snd (frameHeader frame))
  = "  at " ++ Function frame ++ " (" ++ filepath_Base (File frame) ++ ":"
      ++ fmt_d (Line frame) ++ ")" ++ newline.
Proof.
  intros Hfunction Hfile. unfold frameHeader, yellow, gray. cbn [snd].
  rewrite (strip_colors_plain "  at ") by reflexivity.
  rewrite strip_colors_colored by reflexivity.
  rewrite (strip_colors_plain_all (Function frame)) by exact Hfunction.
  rewrite (strip_colors_plain " (") by reflexivity.
  rewrite strip_colors_colored by reflexivity.
  rewrite (strip_colors_plain_all (_ ++ ":" ++ _))
    by (rewrite !no_ESC_app, Hfile, fmt_d_no_ESC; reflexivity).
  rewrite (strip_colors_plain_all (")" ++ newline)) by reflexivity.
  now rewrite !string_app_assoc.
Qed.

Lemma frameHeader_text_witness :
  strip_colors (snd (frameHeader Examples.gamma_frame))
  = "  at " ++ "main.Gamma" ++ " (" ++ "main.go" ++ ":" ++ "10" ++ ")" ++ newline.
Proof.
  apply (frameHeader_text Examples.gamma_frame); reflexivity.
Defined.

(** ** Line numbers and gutters *)

Section Digits.

Import Decimal.

Lemma length_string_of_uint d :
  String.length (NilEmpty.string_of_uint d) = nb_digits d.
Proof. induction d; cbn; auto. Qed.

Lemma nb_digits_succ d : nb_digits d <= nb_digits (Little.succ d).
Proof. induction d; cbn; lia. Qed.

Lemma nb_digits_to_lu_mono (a b : N) :
  (a <= b)%N ->
  nb_digits (DecimalPos.Unsigned.to_lu a) <= nb_digits (DecimalPos.Unsigned.to_lu b).
Proof.
  intros Hab. replace b with (a + (b - a))%N by lia.
  generalize (b - a)%N as k. clear b Hab.
  induction k as [|k IH] using N.peano_ind.
  - now rewrite N.add_0_r.
  - rewrite N.add_succ_r, DecimalPos.Unsigned.to_lu_succ.
    etransitivity; [exact IH | apply nb_digits_succ].
Qed.

(** The number of bytes of a number that is not negative is the number of
    its decimal digits. *)
Lemma length_fmt_d n :
  (0 <= n)%Z ->
  String.length (fmt_d n) = nb_digits (DecimalPos.Unsigned.to_lu (Z.to_N n)).
Proof.
  intros Hn. unfold fmt_d. destruct n as [|p|p]; [reflexivity | | lia].
  cbn [Z.to_int Z.to_N DecimalPos.Unsigned.to_lu NilZero.string_of_int].
  unfold Pos.to_uint.
  rewrite <- (DecimalFacts.nb_digits_rev (Pos.to_little_uint p)).
  fold (Pos.to_uint p).
  pose proof (DecimalPos.Unsigned.to_uint_nonnil p) as Hnil.
  unfold NilZero.string_of_uint.
  destruct (Pos.to_uint p) eqn:Hp; try contradiction;
    rewrite <- Hp; apply length_string_of_uint.
Qed.

(** A larger number has no fewer digits. *)
Lemma length_fmt_d_mono a b :
  (0 <= a <= b)%Z -> String.length (fmt_d a) <= String.length (fmt_d b).
Proof.
  intros Hab. rewrite !length_fmt_d by lia.
  apply nb_digits_to_lu_mono. lia.
Qed.

Lemma length_strings_Repeat_space n : String.length (strings_Repeat " " n) = n.
Proof. induction n as [|n IH]; cbn; [reflexivity | now rewrite IH]. Qed.

Lemma string_length_app a b :
  String.length (a ++ b) = String.length a + String.length b.
Proof. induction a as [|c a IH]; cbn; [reflexivity | now rewrite IH]. Qed.

(** A padded number is never cut: it has the width asked for, or its own
    if that is larger. *)
Lemma length_fmt_pad_d width n :
  String.length (fmt_pad_d width n) = Nat.max width (String.length (fmt_d n)).
Proof.
  unfold fmt_pad_d. rewrite string_length_app, length_strings_Repeat_space. lia.
Qed.

End Digits.

Section Rows.

Variables (lines : list string) (startLine errorLineIndex : Z) (width : nat).


End Rows.

(** The numbers of the lines of a block are in range and not negative. *)
Lemma block_numbers fs path file centerLine context lines startLine i :
  fs path = Some file ->
  readSourceContextLines fs path centerLine context = inl (lines, startLine) ->
  GoInt.in_range (centerLine - context) ->
  GoInt.in_range (centerLine + context) ->
  (Z.of_nat (List.length (scan_lines file)) < GoInt.max_int)%Z ->
  i < List.length lines ->
  GoInt.add startLine (Z.of_nat i) = (startLine + Z.of_nat i)%Z
  /\ GoInt.sub (GoInt.add startLine (Z.of_nat (List.length lines))) 1
     = (startLine + Z.of_nat (List.length lines) - 1)%Z
  /\ (1 <= startLine + Z.of_nat i <= startLine + Z.of_nat (List.length lines) - 1)%Z.
Proof.
  intros Hfs Hread Hlo Hhi Hlen Hi.
  destruct (readSourceContextLines_inl fs path file centerLine context lines
              startLine Hfs Hread Hlo Hhi ltac:(lia))
    as (Hstart & _ & _ & _ & Hend & Hfile).
  unfold GoInt.add, GoInt.sub.
  unfold GoInt.in_range, GoInt.min_int, GoInt.max_int in *.
  rewrite (wrap_in_range (startLine + Z.of_nat i))
    by (unfold GoInt.in_range, GoInt.min_int, GoInt.max_int; lia).
  rewrite (wrap_in_range (startLine + Z.of_nat (List.length lines)))
    by (unfold GoInt.in_range, GoInt.min_int, GoInt.max_int; lia).
  rewrite wrap_in_range
    by (unfold GoInt.in_range, GoInt.min_int, GoInt.max_int; lia).
  repeat split; lia.
Qed.

(** X15. In the block of a frame every line number is padded to the
    same width, that of the last number of the block: the gutters, color
    codes apart, are two spaces, the padded number and the bar, all of the
    same length, so the bars are in one column. *)
Theorem gutters_are_aligned fs path file centerLine context lines startLine i b :
  fs path = Some file ->
  readSourceContextLines fs path centerLine context = inl (lines, startLine) ->
  GoInt.in_range (centerLine - context) ->
  GoInt.in_range (centerLine + context) ->
  (Z.of_nat (List.length (scan_lines file)) < GoInt.max_int)%Z ->
  i < List.length lines ->
  let width := lineNumWidth startLine lines in
  let lineNum := GoInt.add startLine (Z.of_nat i) in
  lineNum = (startLine + Z.of_nat i)%Z
  /\ String.length (fmt_pad_d width lineNum) = width
  /\ strip_colors (gutter b width lineNum)
     = "  " ++ fmt_pad_d width lineNum ++ " | "
  /\ String.length (strip_colors (gutter b width lineNum)) = width + 5.
Proof.
  intros Hfs Hread Hlo Hhi Hlen Hi width lineNum.
  destruct (block_numbers fs path file centerLine context lines startLine i
              Hfs Hread Hlo Hhi Hlen Hi) as (Hnum & Hlast & Hrange).
  assert (Hwidth : String.length (fmt_pad_d width lineNum) = width).
  { rewrite length_fmt_pad_d. subst width lineNum. unfold lineNumWidth.
    rewrite Hnum, Hlast.
    pose proof (length_fmt_d_mono (startLine + Z.of_nat i)
                  (startLine + Z.of_nat (List.length lines) - 1)
                  ltac:(lia)).
    lia. }
  assert (Hstrip : strip_colors (gutter b width lineNum)
                   = "  " ++ fmt_pad_d width lineNum ++ " | ").
  { unfold gutter, boldGray, gray.
    destruct b;
      rewrite <- (string_app_nil_r (_ ++ _ ++ colorReset));
      rewrite strip_colors_colored by reflexivity;
      rewrite string_app_nil_r;
      apply strip_colors_plain_all;
      rewrite !no_ESC_app, fmt_pad_d_no_ESC; reflexivity. }
  split; [exact Hnum|]. split; [exact Hwidth|]. split; [exact Hstrip|].
  rewrite Hstrip, !string_length_app, Hwidth. cbn. lia.
Qed.

Lemma gutters_are_aligned_witness :
  GoInt.add 9 (Z.of_nat 0) = (9 + Z.of_nat 0)%Z
  /\ String.length (fmt_pad_d 2 (GoInt.add 9 (Z.of_nat 0))) = 2
  /\ strip_colors (gutter false 2 (GoInt.add 9 (Z.of_nat 0)))
     = "  " ++ fmt_pad_d 2 (GoInt.add 9 (Z.of_nat 0)) ++ " | "
  /\ String.length (strip_colors (gutter false 2 (GoInt.add 9 (Z.of_nat 0)))) = 2 + 5.
Proof.
  apply (gutters_are_aligned Examples.app_fs "/src/app/main.go"
           (mkSourceFile Examples.app_source false) 10 1
           ["	}"; "	return tracerr.New(reason)"; "}"] 9 0 false);
    try reflexivity;
    unfold GoInt.in_range, GoInt.min_int, GoInt.max_int; simpl; lia.
Defined.


